(** * receive-kit: the attestation-receiving pipeline of [src/index.ts]

    A shallow embedding of [src/index.ts] and [src/txUtils.ts], and the
    properties of the verification pipeline stated over it.

    JavaScript values are modelled as trees of own enumerable properties,
    which is what [JSON.parse] produces and what [JSON.stringify], [_.keys]
    and the property reads of the program on a parsed body observe.
    Prototype links are not represented: a record that carries a key
    [__proto__] loses it in [sortObject], as in the program, and what a
    later read would find through the prototype it set is outside the
    model.  Strings are sequences of code units; a character of [string]
    stands for one code unit below 256. *)

From Stdlib Require Import List String Ascii Bool Arith NArith Lia.
From Stdlib Require Import Sorted Permutation RelationClasses OrdersEx DecimalString DecimalN.
From Stdlib Require Import PrimFloat.
Import ListNotations.
Local Open Scope string_scope.
Local Open Scope list_scope.

(** ** Values *)

Unset Elimination Schemes.
Inductive value : Type :=
| Undefined
| Null
| Bool (b : bool)
| Num (x : float)
| Str (s : string)
| Arr (items : list value)
| Obj (props : list (string * value)).
Set Elimination Schemes.

(** Induction over values, with the hypothesis available for every element
    of an array and every property value of an object. *)
Definition value_induction (P : value -> Prop)
  (HUndefined : P Undefined) (HNull : P Null)
  (HBool : forall b, P (Bool b)) (HNum : forall x, P (Num x))
  (HStr : forall s, P (Str s))
  (HArr : forall items, Forall P items -> P (Arr items))
  (HObj : forall props, Forall (fun kv => P (snd kv)) props -> P (Obj props))
  : forall v, P v :=
  fix go (v : value) : P v :=
    match v with
    | Undefined => HUndefined
    | Null => HNull
    | Bool b => HBool b
    | Num x => HNum x
    | Str s => HStr s
    | Arr items =>
        HArr items
          ((fix all (l : list value) : Forall P l :=
              match l with
              | [] => Forall_nil _
              | x :: l' => Forall_cons x (go x) (all l')
              end) items)
    | Obj props =>
        HObj props
          ((fix all (l : list (string * value)) : Forall (fun kv => P (snd kv)) l :=
              match l with
              | [] => Forall_nil _
              | kv :: l' => Forall_cons kv (go (snd kv)) (all l')
              end) props)
    end.

(** ** Objects: own properties in enumeration order *)

(** [object[key]] for an own property list; [undefined] when absent. *)
Fixpoint obj_get (props : list (string * value)) (key : string) : value :=
  match props with
  | [] => Undefined
  | (k, v) :: rest => if String.eqb key k then v else obj_get rest key
  end.

Fixpoint obj_has (props : list (string * value)) (key : string) : bool :=
  match props with
  | [] => false
  | (k, _) :: rest => String.eqb key k || obj_has rest key
  end.

(** An array index is the canonical decimal string of an integer below
    2^32 - 1.  Own keys that are array indices are enumerated first, in
    ascending numeric order; the other keys follow in creation order. *)
Definition array_index (key : string) : option N :=
  match NilEmpty.uint_of_string key with
  | Some u =>
      let n := N.of_uint u in
      if String.eqb (NilEmpty.string_of_uint (N.to_uint n)) key && (n <=? 4294967294)%N
      then Some n else None
  | None => None
  end.

Definition index_key (i : nat) : string :=
  NilEmpty.string_of_uint (N.to_uint (N.of_nat i)).

(** Writing an existing own property keeps its place. *)
Fixpoint obj_replace (props : list (string * value)) (key : string) (v : value)
  : list (string * value) :=
  match props with
  | [] => []
  | (k, x) :: rest =>
      if String.eqb key k then (k, v) :: rest else (k, x) :: obj_replace rest key v
  end.

(** A new array-index key goes before the first key that is not an array
    index or is a larger one. *)
Fixpoint obj_insert_index (props : list (string * value)) (n : N) (key : string) (v : value)
  : list (string * value) :=
  match props with
  | [] => [(key, v)]
  | (k, x) :: rest =>
      match array_index k with
      | Some m =>
          if (n <? m)%N then (key, v) :: (k, x) :: rest
          else (k, x) :: obj_insert_index rest n key v
      | None => (key, v) :: (k, x) :: rest
      end
  end.

Definition obj_insert (props : list (string * value)) (key : string) (v : value)
  : list (string * value) :=
  match array_index key with
  | Some n => obj_insert_index props n key v
  | None => props ++ [(key, v)]
  end.

(** [sortedObj[key] = v] on an object created by [{}]: the key [__proto__]
    reaches the setter inherited from [Object.prototype] and creates no own
    property. *)
Definition obj_set (props : list (string * value)) (key : string) (v : value)
  : list (string * value) :=
  if String.eqb key "__proto__" then props
  else if obj_has props key then obj_replace props key v
  else obj_insert props key v.

(** The own enumerable properties [_.keys] and [object[key]] see: those of
    an object, the elements of an array, the characters of a string, none
    for the other primitives. *)
Fixpoint indexed (i : nat) (items : list value) : list (string * value) :=
  match items with
  | [] => []
  | x :: rest => (index_key i, x) :: indexed (S i) rest
  end.

Definition chars (s : string) : list value :=
  map (fun c => Str (String c "")) (list_ascii_of_string s).

Definition own_props (object : value) : list (string * value) :=
  match object with
  | Obj props => props
  | Arr items => indexed 0 items
  | Str s => indexed 0 (chars s)
  | _ => []
  end.

Definition keys (object : value) : list string := map fst (own_props object).

(** [object[key]] and [object.key], for the keys the program reads: the own
    keys of [object] in [sortObject], and the fields [token], [subject],
    [data], [packedData], [signature], [tx], [attester] and [layer2Hash],
    which no prototype provides. *)
Definition read (object : value) (key : string) : value :=
  obj_get (own_props object) key.

(** ** [_.sortBy(keys, key => key)] *)

(** The comparison of lodash on strings is [<] on code units; sorting a list
    of strings by themselves has one possible result, computed here by
    insertion. *)
Fixpoint insert_sorted (key : string) (sorted : list string) : list string :=
  match sorted with
  | [] => [key]
  | k :: rest =>
      if String.leb key k then key :: k :: rest else k :: insert_sorted key rest
  end.

Fixpoint sortBy (l : list string) : list string :=
  match l with
  | [] => []
  | key :: rest => insert_sorted key (sortBy rest)
  end.

(** ** [sortObject] *)

(** The loop [_.each(keys, key => { sortedObj[key] = ... })] over a fresh
    [sortedObj]. *)
Definition fill (assigned : string -> value) (ks : list string) : list (string * value) :=
  fold_left (fun sortedObj key => obj_set sortedObj key (assigned key)) ks [].

(** [typeof x === "object" && !(x instanceof Array)] *)
Definition plain_object (x : value) : bool :=
  match x with
  | Null | Obj _ => true
  | _ => false
  end.

(** The recursion is on the property values, so they are mapped before the
    loop reads them by key; [sortObject_eq] below gives the equation in the
    shape of the source. *)
Fixpoint sortObject (object : value) : value :=
  let entries :=
    match object with
    | Obj props =>
        map (fun kv =>
               (fst kv,
                match snd kv with
                | Null => sortObject (snd kv)
                | Obj _ => sortObject (snd kv)
                | _ => snd kv
                end)) props
    | Arr items =>
        indexed 0
          (map (fun x =>
                  match x with
                  | Null => sortObject x
                  | Obj _ => sortObject x
                  | _ => x
                  end) items)
    | Str s => indexed 0 (chars s)
    | _ => []
    end in
  Obj (fill (obj_get entries) (sortBy (map fst entries))).

Definition sortChild (x : value) : value :=
  if plain_object x then sortObject x else x.

(** ** Request shape validation *)

(** [TRequestFormatError], [TBasicOffChainValidationError] and
    [TOnChainValidationError]: a key and a message. *)
Record TError : Type := mkError { key : string; message : string }.

(** [errors.push({ key, message: "TODO" })] on the error list threaded
    through a validator. *)
Definition push {A : Type} (errors : list A) (e : A) : list A := errors ++ [e].

Definition error (k : string) : TError := {| key := k; message := "TODO" |}.

(** The code units [String.prototype.trim] strips, among those below 256:
    tab, line feed, vertical tab, form feed, carriage return, space and
    no-break space. *)
Definition is_whitespace (c : ascii) : bool :=
  existsb (N.eqb (N_of_ascii c)) [9; 10; 11; 12; 13; 32; 160]%N.

Fixpoint trimStart (s : string) : string :=
  match s with
  | String c rest => if is_whitespace c then trimStart rest else s
  | EmptyString => EmptyString
  end.

Fixpoint trimEnd (s : string) : string :=
  match s with
  | String c rest =>
      let t := trimEnd rest in
      if is_whitespace c && String.eqb t "" then "" else String c t
  | EmptyString => EmptyString
  end.

Definition trim (s : string) : string := trimEnd (trimStart s).

Definition isNullOrWhiteSpace (v : value) : bool :=
  match v with
  | Str s => String.eqb (trim s) ""
  | _ => true
  end.

(** [!(data instanceof Array) || !data.length] *)
Definition not_nonempty_array (v : value) : bool :=
  match v with
  | Arr (_ :: _) => false
  | _ => true
  end.

(** [body] is [req.body]; the JSON body parser only ever yields an object
    or an array there. *)
Definition validateRequestFormat (body : value) : list TError :=
  let errors := [] in
  let errors :=
    if isNullOrWhiteSpace (read body "token") then push errors (error "token") else errors in
  let errors :=
    if isNullOrWhiteSpace (read body "subject") then push errors (error "subject") else errors in
  let errors :=
    if not_nonempty_array (read body "data") then push errors (error "data") else errors in
  let errors :=
    if isNullOrWhiteSpace (read body "packedData")
    then push errors (error "packedData") else errors in
  let errors :=
    if isNullOrWhiteSpace (read body "signature")
    then push errors (error "signature") else errors in
  errors.

(** ** Decoded logs, [src/txUtils.ts] *)

Record IDecodedLogEvent : Type :=
  { event_name : string; event_type : string; event_value : string }.

Record TDecodedLog : Type :=
  { log_address : string; log_name : string; log_events : list IDecodedLogEvent }.

(** [event && event.value]: a string, or [undefined] as [None]. *)
Definition getDecodedLogValueByName (decodedLog : TDecodedLog) (name : string)
  : option string :=
  match find (fun e => String.eqb (event_name e) name) (log_events decodedLog) with
  | Some event => Some (event_value event)
  | None => None
  end.

(** [x !== y] where [y] is a string or [undefined]. *)
Definition strict_eq (x : value) (y : option string) : bool :=
  match x, y with
  | Str s, Some t => String.eqb s t
  | Undefined, None => true
  | _, _ => false
  end.

(** ** On-chain cross-validation *)

Record TDecodedLogsAndData : Type :=
  { shareData : value; logs : list TDecodedLog }.

(** The body of the [forEach] callback, on the error list so far. *)
Definition checkDecodedLogs (subject : value) (errors : list TError)
  (dl : TDecodedLogsAndData) : list TError :=
  match find (fun l => String.eqb (log_name l) "TraitAttested") (logs dl) with
  | None => push errors (error "TraitAttested")
  | Some traitAttestedLogs =>
      let onChainSubjectAddress := getDecodedLogValueByName traitAttestedLogs "subject" in
      let errors :=
        if negb (strict_eq subject onChainSubjectAddress)
        then push errors (error "subject") else errors in
      let onChainAttesterAddress := getDecodedLogValueByName traitAttestedLogs "attester" in
      let errors :=
        if negb (strict_eq (read (shareData dl) "attester") onChainAttesterAddress)
        then push errors (error "attester") else errors in
      let onChainDataHash := getDecodedLogValueByName traitAttestedLogs "dataHash" in
      let errors :=
        if negb (strict_eq (read (shareData dl) "layer2Hash") onChainDataHash)
        then push errors (error "layer2Hash") else errors in
      errors
  end.

Definition validateOnChainProperties (subject : value)
  (decodedLogsAndData : list TDecodedLogsAndData) : list TError :=
  fold_left (checkDecodedLogs subject) decodedLogsAndData [].

(** ** External collaborators *)

(** The functions the program imports from its dependencies, with the
    types they are used at; they are taken to return on every argument,
    except for the fetch of a receipt: a receipt that cannot be fetched
    (the promise rejects, or resolves to no receipt) is [None]. *)
Class Externals : Type :=
  { Buffer : Type;
    toBuffer : value -> Buffer;
    recoverHashSigner : Buffer -> value -> string;
    keccak256 : string -> string;
    JSON_stringify : value -> string;
    IntegrityError : Type;
    verifyOffChainDataIntegrity : value -> list IntegrityError;
    RawLog : Type;
    getTransactionReceipt : string -> value -> option (list RawLog);
    decodeLogs : list RawLog -> list TDecodedLog }.

Section Pipeline.

Context {ext : Externals}.

(** [process.env.WEB3_PROVIDER] *)
Variable provider : string.

Definition getDecodedTxEventLogs (provider : string) (txHash : value)
  : option (list TDecodedLog) :=
  match getTransactionReceipt provider txHash with
  | Some txReceipt_logs => Some (decodeLogs txReceipt_logs)
  | None => None
  end.

(** ** Off-chain identity validation *)

Definition recoveredPackedData (shareKitResData : value) : string :=
  "0x" ++
  keccak256
    (JSON_stringify
       (Obj [("data", read shareKitResData "data");
             ("token", read shareKitResData "token")])).

(** [signerEthAddress] *)
Definition signer_of (shareKitResData : value) : string :=
  recoverHashSigner
    (toBuffer (read shareKitResData "packedData"))
    (read shareKitResData "signature").

Definition validateBasicOffChainProperties (shareKitResData : value) : list TError :=
  let errors := [] in
  let signerEthAddress :=
    recoverHashSigner
      (toBuffer (read shareKitResData "packedData"))
      (read shareKitResData "signature") in
  let errors :=
    if negb (strict_eq (read shareKitResData "subject") (Some signerEthAddress))
    then push errors (error "subject") else errors in
  let errors :=
    if negb (strict_eq (read shareKitResData "packedData")
               (Some (recoveredPackedData shareKitResData)))
    then push errors (error "packedData") else errors in
  errors.

(** ** The handler of [POST /api/receive] *)

Record TOffChainVerification : Type :=
  { layer2Hash : value; errors : list IntegrityError }.

Inductive json : Type :=
| ErrorList (errors : list TError)
| RecordResults (results : list TOffChainVerification)
| Success (token : value).

Record response : Type := { status : nat; body : json }.

(** What becomes of a request: a response is sent, or the handler's promise
    rejects and the handler sends none. *)
Inductive outcome : Type :=
| Sent (r : response)
| Rejected.

(** The stages of the handler, recorded in the order they are entered. *)
Inductive stage : Type :=
| RequestFormat
| BasicOffChain
| OffChainIntegrity
| LogFetch
| OnChain.

(** [shareKitResData.data = v] *)
Definition assign (object : value) (k : string) (v : value) : value :=
  match object with
  | Obj props => Obj (obj_set props k v)
  | _ => object
  end.

(** One continuation of the [async] callback: the record and its own logs
    are pushed when its fetch completes. *)
Definition pushFetched (data : list value)
  (decodedDataAndLogs : list TDecodedLogsAndData) (i : nat)
  : list TDecodedLogsAndData :=
  match nth_error data i with
  | Some d =>
      match getDecodedTxEventLogs provider (read d "tx") with
      | Some l => push decodedDataAndLogs {| shareData := d; logs := l |}
      | None => decodedDataAndLogs
      end
  | None => decodedDataAndLogs
  end.

(** [await Promise.all(data.map(async shareData => ...))]: the fetches are
    issued in the order of [data] and complete in the order [completion],
    the positions of [data] in some order; if any of them fails the whole
    rejects. *)
Definition fetchAll (data : list value) (completion : list nat)
  : option (list TDecodedLogsAndData) :=
  if forallb
       (fun d =>
          match getDecodedTxEventLogs provider (read d "tx") with
          | Some _ => true
          | None => false
          end) data
  then Some (fold_left (pushFetched data) completion [])
  else None.

Definition verifyRecord (d : value) : TOffChainVerification :=
  {| layer2Hash := read d "layer2Hash"; errors := verifyOffChainDataIntegrity d |}.

Definition is_empty {A : Type} (l : list A) : bool :=
  match l with
  | [] => true
  | _ :: _ => false
  end.

(** The handler, on [req.body] and the order in which the fetches of the
    request complete.  It returns the stages it entered and what became of
    the request. *)
Definition receive (req_body : value) (completion : list nat) : list stage * outcome :=
  let reqFormatValidation := validateRequestFormat req_body in
  if negb (is_empty reqFormatValidation) then
    ([RequestFormat],
     Sent {| status := 400; body := ErrorList reqFormatValidation |})
  else
    let shareKitResData := sortObject req_body in
    match read shareKitResData "data" with
    | Arr data =>
        let shareKitResData := assign shareKitResData "data" (Arr (map sortObject data)) in
        let basicOffChainValidation := validateBasicOffChainProperties shareKitResData in
        if negb (is_empty basicOffChainValidation) then
          ([RequestFormat; BasicOffChain],
           Sent {| status := 400; body := ErrorList basicOffChainValidation |})
        else
          match read shareKitResData "data" with
          | Arr data =>
              let offChainVerifications := map verifyRecord data in
              let hasOffChainVerificationErrors :=
                negb (forallb (fun v => is_empty (errors v)) offChainVerifications) in
              if hasOffChainVerificationErrors then
                ([RequestFormat; BasicOffChain; OffChainIntegrity],
                 Sent {| status := 400; body := RecordResults offChainVerifications |})
              else
                match fetchAll data completion with
                | Some decodedDataAndLogs =>
                    let onChainVerifications :=
                      validateOnChainProperties
                        (read shareKitResData "subject") decodedDataAndLogs in
                    if negb (is_empty onChainVerifications) then
                      ([RequestFormat; BasicOffChain; OffChainIntegrity; LogFetch; OnChain],
                       Sent {| status := 400; body := ErrorList onChainVerifications |})
                    else
                      ([RequestFormat; BasicOffChain; OffChainIntegrity; LogFetch; OnChain],
                       Sent {| status := 200; body := Success (read req_body "token") |})
                | None =>
                    ([RequestFormat; BasicOffChain; OffChainIntegrity; LogFetch], Rejected)
                end
          | _ => ([RequestFormat; BasicOffChain], Rejected)
          end
    | _ => ([RequestFormat], Rejected)
    end.

End Pipeline.

(** * Definitions used by the statements *)

(** Ascending lexical order of code units. *)
Definition str_lt (a b : string) : Prop := String.compare a b = Lt.

(** The order in which the own keys of an object are enumerated when they
    were created in ascending lexical order: array indices by number, then
    the others lexically. *)
Definition js_lt (a b : string) : Prop :=
  match array_index a, array_index b with
  | Some n, Some m => (n < m)%N
  | Some _, None => True
  | None, Some _ => False
  | None, None => str_lt a b
  end.

Definition key_ordered (props : list (string * value)) : Prop :=
  StronglySorted js_lt (map fst props).

(** Every key that is not an array index is lexically at most [k]. *)
Definition below (props : list (string * value)) (k : string) : Prop :=
  forall k', In k' (map fst props) -> array_index k' = None -> String.leb k' k = true.

Definition mem (k : string) (ks : list string) : bool := existsb (String.eqb k) ks.

Definition map_values (f : value -> value) (props : list (string * value))
  : list (string * value) :=
  map (fun kv => (fst kv, f (snd kv))) props.




Definition all_whitespace (s : string) : bool :=
  forallb is_whitespace (list_ascii_of_string s).

(** A field passes the non-blank rule when it is a string with a character
    that is not whitespace. *)
Definition non_blank (v : value) : Prop :=
  exists s, v = Str s /\ all_whitespace s = false.

Definition non_empty_sequence (v : value) : Prop :=
  exists x rest, v = Arr (x :: rest).

Definition rule (b : bool) (k : string) : list TError :=
  if b then [error k] else [].


(** ** A small instance of the externals

    Used to run the pipeline on concrete submissions.  Byte decoding
    ignores the case of letters, as the decoding of hexadecimal digits
    does; the signature of a message is the message prefixed by [sig:] and
    is that of the address [0xa11ce]; the hash of a text is the text, and
    the encoding of [{data, token}] is its token.  Transaction [0x01]
    recorded an attestation of [0xa11ce] by [0xb0b], transaction [0x03] one
    by [0xe5e], transaction [0x02] emitted nothing, and no other
    transaction is known. *)

Definition lower (c : ascii) : ascii :=
  let n := N_of_ascii c in
  if ((65 <=? n) && (n <=? 90))%N then ascii_of_N (n + 32) else c.

Fixpoint lowercase (s : string) : string :=
  match s with
  | String c rest => String (lower c) (lowercase rest)
  | EmptyString => EmptyString
  end.

Definition attested (attester : string) : TDecodedLog :=
  {| log_address := "0xc0";
     log_name := "TraitAttested";
     log_events :=
       [ {| event_name := "subject"; event_type := "address"; event_value := "0xa11ce" |};
         {| event_name := "attester"; event_type := "address"; event_value := attester |};
         {| event_name := "dataHash"; event_type := "bytes32"; event_value := "0xd1" |} ] |}.

Definition demo : Externals :=
  {| Buffer := string;
     toBuffer := fun v => match v with Str s => lowercase s | _ => "" end;
     recoverHashSigner := fun message signature =>
       match signature with
       | Str s => if String.eqb s (String.append "sig:" message) then "0xa11ce" else "0x0"
       | _ => "0x0"
       end;
     keccak256 := fun text => text;
     JSON_stringify := fun v => match read v "token" with Str t => t | _ => "" end;
     IntegrityError := string;
     verifyOffChainDataIntegrity := fun d =>
       match read d "layer2Hash" with Str _ => [] | _ => ["layer2Hash"] end;
     RawLog := TDecodedLog;
     getTransactionReceipt := fun _ txHash =>
       match txHash with
       | Str tx =>
           if String.eqb tx "0x01" then Some [attested "0xb0b"]
           else if String.eqb tx "0x02" then Some []
           else if String.eqb tx "0x03" then Some [attested "0xe5e"]
           else None
       | _ => None
       end;
     decodeLogs := fun raw => raw |}.

Definition record (tx attester : string) : value :=
  Obj [("tx", Str tx); ("layer2Hash", Str "0xd1"); ("attester", Str attester)].

Definition submission (token packedData signature : string) (data : list value) : value :=
  Obj [("token", Str token); ("subject", Str "0xa11ce"); ("data", Arr data);
       ("packedData", Str packedData); ("signature", Str signature)].

(** [shareKitResData] after [sortObject(req.body)] and the assignment of
    the sorted records to its [data]. *)
Definition canonical (req_body : value) (data : list value) : value :=
  assign (sortObject req_body) "data" (Arr (map sortObject data)).

Definition all_stages : list stage :=
  [RequestFormat; BasicOffChain; OffChainIntegrity; LogFetch; OnChain].

(** Two values that differ at most in the order in which the keys of their
    mappings are given, in the values themselves and in the mappings
    reached from them through mappings. *)
Inductive reordered : value -> value -> Prop :=
| reordered_same (v : value) : reordered v v
| reordered_obj (p q : list (string * value)) :
    (forall k, In k (map fst p) <-> In k (map fst q)) ->
    (forall k, reordered (obj_get p k) (obj_get q k)) ->
    reordered (Obj p) (Obj q).

(** Two request bodies that differ at most in the order of their keys and
    of the keys of the records of their [data]. *)
Inductive reordered_request : value -> value -> Prop :=
| reordered_request_obj (p q : list (string * value)) (dp dq : list value) :
    (forall k, In k (map fst p) <-> In k (map fst q)) ->
    obj_get p "data" = Arr dp ->
    obj_get q "data" = Arr dq ->
    Forall2 reordered dp dq ->
    (forall k, k <> "data" -> reordered (obj_get p k) (obj_get q k)) ->
    reordered_request (Obj p) (Obj q).

(** The value [getDecodedLogValueByName] returns, a string or
    [undefined]. *)
Definition of_log_value (y : option string) : value :=
  match y with
  | Some s => Str s
  | None => Undefined
  end.

(** The first log named [TraitAttested]. *)
Definition traitAttested (l : list TDecodedLog) : option TDecodedLog :=
  find (fun l => String.eqb (log_name l) "TraitAttested") l.

Section Fetched.

Context {ext : Externals}.
Variable provider : string.

(** What the completion of the fetch at position [i] pushes. *)
Definition fetchedAt (data : list value) (i : nat) : list TDecodedLogsAndData :=
  match nth_error data i with
  | Some d =>
      match getDecodedTxEventLogs provider (read d "tx") with
      | Some l => [ {| shareData := d; logs := l |} ]
      | None => []
      end
  | None => []
  end.


(** Two outcomes that differ at most in the order of the errors of an
    error list. *)
Definition same_up_to_order (o1 o2 : outcome) : Prop :=
  match o1, o2 with
  | Sent a, Sent b =>
      status a = status b /\
      match body a, body b with
      | ErrorList e1, ErrorList e2 => Permutation e1 e2
      | b1, b2 => b1 = b2
      end
  | Rejected, Rejected => True
  | _, _ => False
  end.

End Fetched.

(** * Properties *)

(** ** The order of keys *)

Lemma compare_as_OT (a b : string) : String.compare a b = String_as_OT.compare a b.
Proof.
  reflexivity.
Qed.

Lemma str_lt_trans (a b c : string) : str_lt a b -> str_lt b c -> str_lt a c.
Proof.
  unfold str_lt; rewrite !compare_as_OT.
  apply (@StrictOrder_Transitive _ _ String_as_OT.lt_strorder).
Qed.

Lemma str_lt_irrefl (a : string) : ~ str_lt a a.
Proof.
  unfold str_lt; rewrite compare_as_OT.
  apply (@StrictOrder_Irreflexive _ _ String_as_OT.lt_strorder).
Qed.

Lemma leb_lt_or_eq (a b : string) : String.leb a b = true <-> str_lt a b \/ a = b.
Proof.
  unfold String.leb, str_lt. split.
  - destruct (String.compare a b) eqn:E; intros H; try discriminate.
    + right. now apply String.compare_eq_iff.
    + now left.
  - intros [-> | ->]; [reflexivity |].
    pose proof (String.compare_antisym b b) as H.
    destruct (String.compare b b); try reflexivity. discriminate.
Qed.

Lemma leb_false_lt (a b : string) : String.leb a b = false -> str_lt b a.
Proof.
  unfold String.leb, str_lt. rewrite (String.compare_antisym b a).
  now destruct (String.compare a b).
Qed.

Lemma array_index_inj (a b : string) (n : N) :
  array_index a = Some n -> array_index b = Some n -> a = b.
Proof.
  unfold array_index.
  destruct (NilEmpty.uint_of_string a) as [u|]; [|discriminate].
  destruct (NilEmpty.uint_of_string b) as [w|]; [|discriminate].
  destruct (String.eqb_spec (NilEmpty.string_of_uint (N.to_uint (N.of_uint u))) a) as [Ea|];
    [|discriminate].
  destruct (String.eqb_spec (NilEmpty.string_of_uint (N.to_uint (N.of_uint w))) b) as [Eb|];
    [|discriminate].
  simpl.
  destruct (N.of_uint u <=? 4294967294)%N; [|discriminate].
  destruct (N.of_uint w <=? 4294967294)%N; [|discriminate].
  intros [= Hu] [= Hw]. rewrite <- Ea, <- Eb, Hu, Hw. reflexivity.
Qed.

Lemma js_lt_trans (a b c : string) : js_lt a b -> js_lt b c -> js_lt a c.
Proof.
  unfold js_lt.
  destruct (array_index a), (array_index b), (array_index c);
    try tauto; try lia. apply str_lt_trans.
Qed.

Lemma js_lt_irrefl (a : string) : ~ js_lt a a.
Proof.
  unfold js_lt. destruct (array_index a); [lia | apply str_lt_irrefl].
Qed.

(** ** Reading and writing own properties *)

Lemma obj_has_In (props : list (string * value)) (k : string) :
  obj_has props k = true <-> In k (map fst props).
Proof.
  induction props as [|[k' x] rest IH]; simpl.
  - split; [discriminate | tauto].
  - rewrite orb_true_iff, IH, String.eqb_eq. split; intros [H | H]; auto.
Qed.

Lemma obj_has_false_get (props : list (string * value)) (k : string) :
  obj_has props k = false -> obj_get props k = Undefined.
Proof.
  induction props as [|[k' x] rest IH]; simpl; [reflexivity |].
  destruct (String.eqb k k'); simpl; [discriminate | exact IH].
Qed.

Lemma keys_replace (props : list (string * value)) (k : string) (v : value) :
  map fst (obj_replace props k v) = map fst props.
Proof.
  induction props as [|[k' x] rest IH]; simpl; [reflexivity |].
  destruct (String.eqb k k'); simpl; [reflexivity | now rewrite IH].
Qed.

Lemma obj_get_replace (props : list (string * value)) (k k' : string) (v : value) :
  obj_has props k = true ->
  obj_get (obj_replace props k v) k' = if String.eqb k' k then v else obj_get props k'.
Proof.
  induction props as [|[k0 x] rest IH]; simpl; [discriminate |].
  destruct (String.eqb_spec k k0) as [->|Hk]; simpl.
  - intros _. now destruct (String.eqb k' k0).
  - intros H. rewrite (IH H).
    destruct (String.eqb_spec k' k0) as [->|]; [|reflexivity].
    destruct (String.eqb_spec k0 k) as [->|]; [contradiction | reflexivity].
Qed.

Lemma In_insert_index (props : list (string * value)) (n : N) (k k' : string) (v : value) :
  In k' (map fst (obj_insert_index props n k v)) <-> k' = k \/ In k' (map fst props).
Proof.
  induction props as [|[k0 x] rest IH]; simpl; [intuition |].
  destruct (array_index k0) as [m|]; [destruct (n <? m)%N|]; simpl;
    rewrite ?IH; intuition.
Qed.

Lemma obj_get_insert_index (props : list (string * value)) (n : N) (k k' : string) (v : value) :
  obj_has props k = false ->
  obj_get (obj_insert_index props n k v) k' =
    if String.eqb k' k then v else obj_get props k'.
Proof.
  induction props as [|[k0 x] rest IH]; simpl; [reflexivity |].
  destruct (String.eqb_spec k k0) as [->|Hk]; simpl; [discriminate |].
  intros H.
  destruct (array_index k0) as [m|]; [destruct (n <? m)%N|]; simpl; try reflexivity.
  rewrite (IH H).
  destruct (String.eqb_spec k' k0) as [->|]; [|reflexivity].
  destruct (String.eqb_spec k0 k) as [->|]; [contradiction | reflexivity].
Qed.

Lemma obj_get_app (props : list (string * value)) (k k' : string) (v : value) :
  obj_has props k = false ->
  obj_get (props ++ [(k, v)]) k' = if String.eqb k' k then v else obj_get props k'.
Proof.
  induction props as [|[k0 x] rest IH]; simpl; [reflexivity |].
  destruct (String.eqb_spec k k0) as [->|Hk]; simpl; [discriminate |].
  intros H. rewrite (IH H).
  destruct (String.eqb_spec k' k0) as [->|]; [|reflexivity].
  destruct (String.eqb_spec k0 k) as [->|]; [contradiction | reflexivity].
Qed.

Lemma obj_get_set (props : list (string * value)) (k k' : string) (v : value) :
  obj_get (obj_set props k v) k' =
    if String.eqb k' k && negb (String.eqb k "__proto__") then v else obj_get props k'.
Proof.
  unfold obj_set.
  destruct (String.eqb k "__proto__"); simpl; [now rewrite andb_false_r |].
  rewrite andb_true_r.
  destruct (obj_has props k) eqn:H.
  - now apply obj_get_replace.
  - unfold obj_insert. destruct (array_index k).
    + now apply obj_get_insert_index.
    + now apply obj_get_app.
Qed.

Lemma In_set (props : list (string * value)) (k k' : string) (v : value) :
  In k' (map fst (obj_set props k v)) <->
  (k' = k /\ k <> "__proto__") \/ In k' (map fst props).
Proof.
  unfold obj_set.
  destruct (String.eqb_spec k "__proto__") as [->|Hp]; [intuition |].
  destruct (obj_has props k) eqn:H.
  - rewrite keys_replace. apply obj_has_In in H. intuition (subst; auto).
  - unfold obj_insert. destruct (array_index k).
    + rewrite In_insert_index. intuition.
    + rewrite map_app, in_app_iff. simpl. intuition.
Qed.

(** ** Keys written in ascending lexical order are enumerated in [js_lt] order *)

Lemma insert_index_ordered (props : list (string * value)) (n : N) (k : string) (v : value) :
  array_index k = Some n ->
  obj_has props k = false ->
  key_ordered props ->
  key_ordered (obj_insert_index props n k v).
Proof.
  unfold key_ordered. intros Hn.
  induction props as [|[k0 x] rest IH]; simpl; intros Hk Hs.
  - repeat constructor.
  - apply orb_false_iff in Hk as [Hk0 Hk]. apply String.eqb_neq in Hk0.
    inversion Hs as [|? ? Hrest Hall]; subst.
    assert (Hcons : forall a, js_lt a k0 ->
              StronglySorted js_lt (a :: k0 :: map fst rest)).
    { intros a Ha. constructor; [exact Hs |]. constructor; [exact Ha |].
      eapply Forall_impl; [|exact Hall]. intros b. now apply js_lt_trans. }
    destruct (array_index k0) as [m|] eqn:Hm.
    + destruct (N.ltb_spec n m) as [Hlt|Hge]; simpl.
      * apply Hcons. unfold js_lt. now rewrite Hn, Hm.
      * constructor; [now apply IH |].
        apply Forall_forall. intros b Hb. apply In_insert_index in Hb as [->|Hb].
        -- unfold js_lt. rewrite Hm, Hn.
           assert (m <> n) by (intros ->; apply Hk0; eapply array_index_inj; eauto).
           lia.
        -- rewrite Forall_forall in Hall. now apply Hall.
    + simpl. apply Hcons. unfold js_lt. now rewrite Hn, Hm.
Qed.

Lemma app_ordered (props : list (string * value)) (k : string) (v : value) :
  key_ordered props ->
  Forall (fun k' => js_lt k' k) (map fst props) ->
  key_ordered (props ++ [(k, v)]).
Proof.
  unfold key_ordered.
  induction props as [|[k0 x] rest IH]; simpl; intros Hs Hall.
  - repeat constructor.
  - inversion Hs; inversion Hall; subst. constructor; [now apply IH |].
    rewrite map_app, Forall_app. split; [assumption | now repeat constructor].
Qed.

Lemma set_ordered (props : list (string * value)) (k : string) (v : value) :
  key_ordered props -> below props k -> key_ordered (obj_set props k v).
Proof.
  intros Hs Hb. unfold obj_set.
  destruct (String.eqb k "__proto__"); [exact Hs |].
  destruct (obj_has props k) eqn:Hk.
  - unfold key_ordered. now rewrite keys_replace.
  - unfold obj_insert. destruct (array_index k) as [n|] eqn:Hn.
    + now apply insert_index_ordered.
    + apply app_ordered; [exact Hs |].
      apply Forall_forall. intros k' Hin. unfold js_lt. rewrite Hn.
      destruct (array_index k') eqn:Hk'; [exact I |].
      destruct (proj1 (leb_lt_or_eq k' k) (Hb k' Hin Hk')) as [Hlt | ->]; [exact Hlt |].
      apply obj_has_In in Hin. congruence.
Qed.

Lemma fold_set_ordered (assigned : string -> value) (ks : list string) :
  StronglySorted (fun a b => String.leb a b = true) ks ->
  forall props,
    key_ordered props ->
    (forall k, In k ks -> below props k) ->
    key_ordered
      (fold_left (fun sortedObj key => obj_set sortedObj key (assigned key)) ks props).
Proof.
  induction 1 as [|k ks Hs IH Hall]; simpl; intros props Ho Hb; [exact Ho |].
  apply IH.
  - apply set_ordered; auto.
  - intros k1 Hk1 k' Hin Hidx. apply In_set in Hin as [[-> _]|Hin].
    + rewrite Forall_forall in Hall. now apply Hall.
    + apply (Hb k1); auto.
Qed.

(** ** [sortBy] sorts *)

Lemma In_insert_sorted (k k' : string) (l : list string) :
  In k' (insert_sorted k l) <-> k' = k \/ In k' l.
Proof.
  induction l as [|a l IH]; simpl; [intuition |].
  destruct (String.leb k a); simpl; rewrite ?IH; intuition.
Qed.

Lemma In_sortBy (k : string) (l : list string) : In k (sortBy l) <-> In k l.
Proof.
  induction l as [|a l IH]; simpl; [tauto |].
  rewrite In_insert_sorted, IH. intuition.
Qed.

Lemma leb_trans (a b c : string) :
  String.leb a b = true -> String.leb b c = true -> String.leb a c = true.
Proof.
  rewrite !leb_lt_or_eq. intros [H1 | ->] [H2 | ->]; auto.
  left. eapply str_lt_trans; eauto.
Qed.

Lemma insert_sorted_sorted (k : string) (l : list string) :
  StronglySorted (fun a b => String.leb a b = true) l ->
  StronglySorted (fun a b => String.leb a b = true) (insert_sorted k l).
Proof.
  induction 1 as [|a l Hs IH Hall]; simpl; [repeat constructor |].
  destruct (String.leb k a) eqn:E.
  - constructor; [now constructor |]. constructor; [exact E |].
    eapply Forall_impl; [|exact Hall]. intros b. now apply leb_trans.
  - constructor; [exact IH |].
    apply Forall_forall. intros b Hb. apply In_insert_sorted in Hb as [->|Hb].
    + apply leb_lt_or_eq. left. now apply leb_false_lt.
    + rewrite Forall_forall in Hall. now apply Hall.
Qed.

Lemma sortBy_sorted (l : list string) :
  StronglySorted (fun a b => String.leb a b = true) (sortBy l).
Proof.
  induction l; simpl; [constructor | now apply insert_sorted_sorted].
Qed.

Lemma sortBy_perm (l : list string) : Permutation (sortBy l) l.
Proof.
  induction l as [|k l IH]; simpl; [constructor |].
  transitivity (k :: sortBy l); [|now constructor].
  clear IH. induction (sortBy l) as [|a s IHs]; simpl; [reflexivity |].
  destruct (String.leb k a); [reflexivity |].
  transitivity (a :: k :: s); [now constructor | apply perm_swap].
Qed.

(** ** The loop of [sortObject] *)

Lemma mem_In (k : string) (ks : list string) : mem k ks = true <-> In k ks.
Proof.
  unfold mem. rewrite existsb_exists. split.
  - intros [a [Ha E]]. apply String.eqb_eq in E. now subst.
  - intros H. exists k. split; [exact H | apply String.eqb_refl].
Qed.

Lemma obj_get_fold_set (assigned : string -> value) (ks : list string) :
  forall props k,
    obj_get (fold_left (fun sortedObj key => obj_set sortedObj key (assigned key)) ks props) k =
      if mem k ks && negb (String.eqb k "__proto__") then assigned k else obj_get props k.
Proof.
  induction ks as [|a ks IH]; intros props k; simpl; [reflexivity |].
  rewrite IH, obj_get_set.
  destruct (String.eqb_spec k a) as [->|Hka]; simpl.
  - destruct (mem a ks); simpl; now destruct (String.eqb a "__proto__").
  - reflexivity.
Qed.

Lemma obj_get_fill (assigned : string -> value) (ks : list string) (k : string) :
  obj_get (fill assigned ks) k =
    if mem k ks && negb (String.eqb k "__proto__") then assigned k else Undefined.
Proof. unfold fill. now rewrite obj_get_fold_set. Qed.

Lemma In_fold_set (assigned : string -> value) (ks : list string) :
  forall props k,
    In k (map fst (fold_left (fun sortedObj key => obj_set sortedObj key (assigned key)) ks props))
    <-> (In k ks /\ k <> "__proto__") \/ In k (map fst props).
Proof.
  induction ks as [|a ks IH]; intros props k; simpl; [tauto |].
  rewrite IH, In_set. intuition (subst; auto).
Qed.

Lemma In_fill (assigned : string -> value) (ks : list string) (k : string) :
  In k (map fst (fill assigned ks)) <-> In k ks /\ k <> "__proto__".
Proof. unfold fill. rewrite In_fold_set. simpl. tauto. Qed.

Lemma fill_ordered (assigned : string -> value) (l : list string) :
  key_ordered (fill assigned (sortBy l)).
Proof.
  unfold fill. apply fold_set_ordered.
  - apply sortBy_sorted.
  - constructor.
  - intros k _ k' [].
Qed.

Lemma fill_ext (f g : string -> value) (ks : list string) :
  (forall k, f k = g k) -> fill f ks = fill g ks.
Proof.
  intros E. unfold fill. generalize (@nil (string * value)).
  induction ks as [|a ks IH]; intros props; simpl; [reflexivity |].
  now rewrite E, IH.
Qed.





(** ** [sortObject] in the shape of the source *)

Lemma keys_map_values (f : value -> value) (props : list (string * value)) :
  map fst (map_values f props) = map fst props.
Proof. unfold map_values. rewrite map_map. reflexivity. Qed.

Lemma obj_get_map_values (f : value -> value) (props : list (string * value)) (k : string) :
  f Undefined = Undefined ->
  obj_get (map_values f props) k = f (obj_get props k).
Proof.
  intros Hf. induction props as [|[k0 x] rest IH]; simpl; [now rewrite Hf |].
  now destruct (String.eqb k k0).
Qed.

Lemma indexed_map_values (f : value -> value) (items : list value) :
  forall i, indexed i (map f items) = map_values f (indexed i items).
Proof.
  induction items as [|x items IH]; intros i; simpl; [reflexivity |].
  now rewrite IH.
Qed.

Lemma sortChild_match (x : value) :
  match x with
  | Null => sortObject x
  | Obj _ => sortObject x
  | _ => x
  end = sortChild x.
Proof. now destruct x. Qed.

Lemma map_values_chars (s : string) (i : nat) :
  map_values sortChild (indexed i (chars s)) = indexed i (chars s).
Proof.
  unfold chars. revert i.
  induction (list_ascii_of_string s) as [|c l IH]; intros i; simpl; [reflexivity |].
  unfold map_values in *. simpl. now rewrite IH.
Qed.

Lemma sortObject_entries (object : value) :
  sortObject object =
    Obj (fill (obj_get (map_values sortChild (own_props object)))
           (sortBy (map fst (map_values sortChild (own_props object))))).
Proof.
  destruct object as [| | | | s | items | props]; try reflexivity.
  - simpl own_props. rewrite map_values_chars. reflexivity.
  - simpl own_props. rewrite <- indexed_map_values.
    unfold sortObject at 1; fold sortObject.
    rewrite (map_ext _ sortChild) by apply sortChild_match. reflexivity.
  - simpl own_props. unfold sortObject at 1; fold sortObject.
    unfold map_values.
    rewrite (map_ext _ (fun kv => (fst kv, sortChild (snd kv)))); [reflexivity |].
    intros kv. now rewrite sortChild_match.
Qed.

(** The body of [sortObject] as written: over the sorted own keys of
    [object], [sortedObj[key]] receives [sortObject(object[key])] when
    [object[key]] is an object that is not an array, and [object[key]]
    otherwise. *)
Lemma sortObject_eq (object : value) :
  sortObject object =
    Obj (fill (fun key => sortChild (read object key)) (sortBy (keys object))).
Proof.
  rewrite sortObject_entries, keys_map_values. unfold keys, read. f_equal.
  apply fill_ext. intros k. now apply obj_get_map_values.
Qed.

Lemma read_absent (object : value) (k : string) :
  ~ In k (keys object) -> read object k = Undefined.
Proof.
  intros H. apply obj_has_false_get.
  destruct (obj_has (own_props object) k) eqn:E; [|reflexivity].
  apply obj_has_In in E. contradiction.
Qed.

Lemma read_sortObject (object : value) (k : string) :
  k <> "__proto__" ->
  read (sortObject object) k = sortChild (read object k).
Proof.
  intros Hk. rewrite sortObject_eq. unfold read at 1. simpl own_props.
  rewrite obj_get_fill.
  apply String.eqb_neq in Hk. rewrite Hk, andb_true_r.
  destruct (mem k (sortBy (keys object))) eqn:E; [reflexivity |].
  rewrite read_absent; [reflexivity |].
  intros Hin. apply In_sortBy, mem_In in Hin. congruence.
Qed.

Lemma keys_sortObject (object : value) (k : string) :
  In k (keys (sortObject object)) <-> In k (keys object) /\ k <> "__proto__".
Proof.
  rewrite sortObject_eq. unfold keys at 1. simpl own_props.
  now rewrite In_fill, In_sortBy.
Qed.

(** ** Objects with ordered keys are determined by their properties *)

Lemma ordered_head_not_in (a : string) (x : value) (props : list (string * value)) :
  key_ordered ((a, x) :: props) -> ~ In a (map fst props).
Proof.
  intros Hs Hin. inversion Hs as [|? ? _ Hall]; subst.
  rewrite Forall_forall in Hall. exact (js_lt_irrefl a (Hall a Hin)).
Qed.

Lemma not_in_get (props : list (string * value)) (k : string) :
  ~ In k (map fst props) -> obj_get props k = Undefined.
Proof.
  intros H. apply obj_has_false_get.
  destruct (obj_has props k) eqn:E; [|reflexivity].
  apply obj_has_In in E. contradiction.
Qed.

Lemma ordered_ext (A : list (string * value)) :
  forall B,
    key_ordered A -> key_ordered B ->
    (forall k, In k (map fst A) <-> In k (map fst B)) ->
    (forall k, obj_get A k = obj_get B k) ->
    A = B.
Proof.
  induction A as [|[a x] A IH]; intros [|[b y] B] HA HB Hin Hget.
  - reflexivity.
  - exfalso. apply (Hin b). simpl; auto.
  - exfalso. apply (Hin a). simpl; auto.
  - assert (Hab : a = b).
    { destruct (proj1 (Hin a) (or_introl eq_refl)) as [E | Ha]; [now symmetry |].
      destruct (proj2 (Hin b) (or_introl eq_refl)) as [E | Hb]; [exact E |].
      exfalso. apply (js_lt_irrefl a).
      inversion HA as [|? ? _ HallA]; inversion HB as [|? ? _ HallB]; subst.
      rewrite Forall_forall in HallA, HallB.
      eapply js_lt_trans; [apply HallA, Hb | apply HallB, Ha]. }
    subst b.
    pose proof (ordered_head_not_in _ _ _ HA) as HnA.
    pose proof (ordered_head_not_in _ _ _ HB) as HnB.
    assert (x = y).
    { specialize (Hget a). simpl in Hget. now rewrite String.eqb_refl in Hget. }
    subst y. f_equal. apply IH.
    + now inversion HA.
    + now inversion HB.
    + intros k. split; intros Hk.
      * destruct (proj1 (Hin k) (or_intror Hk)) as [E | Hk']; [|exact Hk'].
        simpl in E. subst k. contradiction.
      * destruct (proj2 (Hin k) (or_intror Hk)) as [E | Hk']; [|exact Hk'].
        simpl in E. subst k. contradiction.
    + intros k. specialize (Hget k). simpl in Hget.
      destruct (String.eqb_spec k a) as [E|]; [subst k | exact Hget].
      now rewrite !not_in_get.
Qed.

(** Sorting an object whose keys are already in enumeration order, without
    the key [__proto__], rebuilds the same property list. *)
Lemma fill_fixed (A : list (string * value)) :
  key_ordered A ->
  ~ In "__proto__" (map fst A) ->
  fill (obj_get A) (sortBy (map fst A)) = A.
Proof.
  intros HA Hp. apply ordered_ext; [apply fill_ordered | exact HA | |].
  - intros k. rewrite In_fill, In_sortBy. split; [tauto |].
    intros Hk. split; [exact Hk | congruence].
  - intros k. rewrite obj_get_fill.
    destruct (mem k (sortBy (map fst A))) eqn:E; simpl.
    + destruct (String.eqb_spec k "__proto__") as [->|]; simpl; [|reflexivity].
      symmetry. now apply not_in_get.
    + symmetry. apply not_in_get. intros Hk. apply In_sortBy, mem_In in Hk. congruence.
Qed.

Lemma sortObject_fixed (A : list (string * value)) :
  key_ordered A ->
  ~ In "__proto__" (map fst A) ->
  (forall k, sortChild (obj_get A k) = obj_get A k) ->
  sortObject (Obj A) = Obj A.
Proof.
  intros HA Hp Hc. rewrite sortObject_eq. unfold keys, read. simpl own_props.
  rewrite (fill_ext _ (obj_get A)) by exact Hc.
  now rewrite fill_fixed.
Qed.

Lemma plain_sortObject (x : value) : plain_object (sortObject x) = true.
Proof. now rewrite sortObject_eq. Qed.

Lemma sortObject_twice (x : value) :
  (forall k, sortChild (sortChild (read x k)) = sortChild (read x k)) ->
  sortObject (sortObject x) = sortObject x.
Proof.
  intros H. rewrite (sortObject_eq x). apply sortObject_fixed.
  - apply fill_ordered.
  - rewrite In_fill. tauto.
  - intros k. rewrite obj_get_fill.
    destruct (mem k (sortBy (keys x)) && negb (String.eqb k "__proto__")); [apply H | reflexivity].
Qed.

Lemma obj_get_In (props : list (string * value)) (k : string) :
  obj_get props k = Undefined \/ In (obj_get props k) (map snd props).
Proof.
  induction props as [|[k0 x] rest IH]; simpl; [now left |].
  destruct (String.eqb k k0); [right; now left | destruct IH; auto].
Qed.

Lemma sortChild_twice (y : value) :
  (plain_object y = true -> sortObject (sortObject y) = sortObject y) ->
  sortChild (sortChild y) = sortChild y.
Proof.
  intros H. unfold sortChild at 2 3.
  destruct (plain_object y) eqn:E.
  - unfold sortChild. rewrite plain_sortObject. now apply H.
  - unfold sortChild. now rewrite E.
Qed.

Lemma values_indexed (items : list value) :
  forall i, map snd (indexed i items) = items.
Proof.
  induction items as [|x items IH]; intros i; simpl; [reflexivity | now rewrite IH].
Qed.

Lemma plain_chars (s : string) (y : value) : In y (chars s) -> plain_object y = false.
Proof.
  unfold chars. rewrite in_map_iff. now intros [c [<- _]].
Qed.

Lemma sortObject_involutive_on_values (x : value) :
  (forall y, In y (map snd (own_props x)) -> plain_object y = true ->
             sortObject (sortObject y) = sortObject y) ->
  sortObject (sortObject x) = sortObject x.
Proof.
  intros H. apply sortObject_twice. intros k. apply sortChild_twice.
  unfold read. destruct (obj_get_In (own_props x) k) as [E | Hin].
  - rewrite E. discriminate.
  - now apply H.
Qed.

(** ** Sorted objects *)



(** ** Canonicalization *)

Lemma read_canonical (req_body : value) (data : list value) (k : string) :
  k <> "__proto__" ->
  read (canonical req_body data) k =
    if String.eqb k "data" then Arr (map sortObject data) else sortChild (read req_body k).
Proof.
  intros Hk. unfold canonical. rewrite <- (read_sortObject req_body k Hk).
  rewrite sortObject_eq. unfold assign, read. simpl own_props.
  rewrite obj_get_set. simpl. now rewrite andb_true_r.
Qed.

(** C8. Canonicalization is idempotent: for every tree [x] of mappings,
    sequences and scalars, [sortObject (sortObject x)] equals
    [sortObject x]. *)
Theorem sortObject_idempotent (x : value) :
  sortObject (sortObject x) = sortObject x.
Proof.
  induction x as [| | b | n | s | items IH | props IH] using value_induction;
    apply sortObject_involutive_on_values; simpl own_props;
    try (intros y []).
  - rewrite values_indexed. intros y Hy Hp.
    apply plain_chars in Hy. congruence.
  - rewrite values_indexed. intros y Hy _. rewrite Forall_forall in IH. now apply IH.
  - intros y Hy _. apply in_map_iff in Hy as [kv [<- Hin]].
    rewrite Forall_forall in IH. now apply IH.
Qed.



(** ** Request shape *)

Lemma trimEnd_empty (s : string) : trimEnd s = "" <-> all_whitespace s = true.
Proof.
  unfold all_whitespace. induction s as [|c s IH]; simpl; [tauto |].
  destruct (is_whitespace c); simpl.
  - destruct (String.eqb_spec (trimEnd s) "") as [E | E]; rewrite <- IH.
    + tauto.
    + split; [discriminate | tauto].
  - split; discriminate.
Qed.

Lemma trimStart_whitespace (s : string) :
  all_whitespace (trimStart s) = all_whitespace s.
Proof.
  unfold all_whitespace. induction s as [|c s IH]; simpl; [reflexivity |].
  destruct (is_whitespace c) eqn:E; simpl; [exact IH | now rewrite E].
Qed.

Lemma trim_empty (s : string) : trim s = "" <-> all_whitespace s = true.
Proof. unfold trim. now rewrite trimEnd_empty, trimStart_whitespace. Qed.

Lemma isNullOrWhiteSpace_spec (v : value) :
  isNullOrWhiteSpace v = true <-> ~ non_blank v.
Proof.
  unfold non_blank. destruct v; simpl;
    try (split; [intros _ [s [E _]]; discriminate | reflexivity]).
  rewrite String.eqb_eq, trim_empty. split.
  - intros H [s' [[= <-] E]]. congruence.
  - intros H. destruct (all_whitespace s) eqn:E; [reflexivity |].
    exfalso. apply H. eauto.
Qed.

Lemma not_nonempty_array_spec (v : value) :
  not_nonempty_array v = true <-> ~ non_empty_sequence v.
Proof.
  unfold non_empty_sequence. destruct v as [| | | | | [|x items] |]; simpl;
    try (split; [intros _ [x0 [r E]]; discriminate | reflexivity]).
  split; [discriminate |]. intros H. exfalso. apply H. eauto.
Qed.

Lemma validateRequestFormat_rules (body : value) :
  validateRequestFormat body =
    rule (isNullOrWhiteSpace (read body "token")) "token" ++
    rule (isNullOrWhiteSpace (read body "subject")) "subject" ++
    rule (not_nonempty_array (read body "data")) "data" ++
    rule (isNullOrWhiteSpace (read body "packedData")) "packedData" ++
    rule (isNullOrWhiteSpace (read body "signature")) "signature".
Proof.
  unfold validateRequestFormat, rule, push.
  destruct (isNullOrWhiteSpace (read body "token")),
    (isNullOrWhiteSpace (read body "subject")),
    (not_nonempty_array (read body "data")),
    (isNullOrWhiteSpace (read body "packedData")),
    (isNullOrWhiteSpace (read body "signature")); reflexivity.
Qed.

Lemma In_rule (b : bool) (k k' : string) :
  In (error k) (rule b k') <-> b = true /\ k = k'.
Proof.
  unfold rule, error. destruct b; simpl.
  - split; [intros [[= ->] | []]; auto | intros [_ ->]; auto].
  - split; [intros [] | intros [H _]; discriminate].
Qed.

Lemma In_validateRequestFormat (body : value) (k : string) :
  In (error k) (validateRequestFormat body) <->
    (isNullOrWhiteSpace (read body "token") = true /\ k = "token") \/
    (isNullOrWhiteSpace (read body "subject") = true /\ k = "subject") \/
    (not_nonempty_array (read body "data") = true /\ k = "data") \/
    (isNullOrWhiteSpace (read body "packedData") = true /\ k = "packedData") \/
    (isNullOrWhiteSpace (read body "signature") = true /\ k = "signature").
Proof.
  rewrite validateRequestFormat_rules, !in_app_iff, !In_rule. tauto.
Qed.

Section Handler.

Context {ext : Externals}.
Variable provider : string.

(** C5. The shape validator checks its five rules independently and
    returns exactly one error per violated rule: [token], [subject],
    [packedData] and [signature] non-blank, [data] a non-empty sequence.
    When the list is not empty the request ends with status 400 carrying
    that list, and no later stage is entered. *)
Theorem validateRequestFormat_complete (req_body : value) (completion : list nat) :
  let errors := validateRequestFormat req_body in
  (In (error "token") errors <-> ~ non_blank (read req_body "token")) /\
  (In (error "subject") errors <-> ~ non_blank (read req_body "subject")) /\
  (In (error "data") errors <-> ~ non_empty_sequence (read req_body "data")) /\
  (In (error "packedData") errors <-> ~ non_blank (read req_body "packedData")) /\
  (In (error "signature") errors <-> ~ non_blank (read req_body "signature")) /\
  NoDup errors /\
  (forall e, In e errors ->
     In e (map error ["token"; "subject"; "data"; "packedData"; "signature"])) /\
  (errors <> [] ->
   receive provider req_body completion =
     ([RequestFormat], Sent {| status := 400; body := ErrorList errors |})).
Proof.
  cbv zeta.
  rewrite <- !isNullOrWhiteSpace_spec, <- not_nonempty_array_spec, !In_validateRequestFormat.
  repeat split; try (intros H; intuition discriminate); try tauto.
  - rewrite validateRequestFormat_rules. unfold rule, error.
    destruct (isNullOrWhiteSpace (read req_body "token")),
      (isNullOrWhiteSpace (read req_body "subject")),
      (not_nonempty_array (read req_body "data")),
      (isNullOrWhiteSpace (read req_body "packedData")),
      (isNullOrWhiteSpace (read req_body "signature")); simpl;
      repeat (constructor; [simpl; intuition discriminate |]); constructor.
  - rewrite validateRequestFormat_rules. unfold rule.
    intros e. rewrite !in_app_iff.
    destruct (isNullOrWhiteSpace (read req_body "token")),
      (isNullOrWhiteSpace (read req_body "subject")),
      (not_nonempty_array (read req_body "data")),
      (isNullOrWhiteSpace (read req_body "packedData")),
      (isNullOrWhiteSpace (read req_body "signature")); simpl; tauto.
  - intros H. unfold receive.
    destruct (validateRequestFormat req_body); [contradiction | reflexivity].
Qed.

End Handler.

(** C10. A [token], [subject], [packedData] or [signature] that is not a
    string is treated as blank and reported; a field that is not reported
    is a string with a character that is not whitespace. *)
Theorem non_string_field_rejected (req_body : value) (k : string) :
  In k ["token"; "subject"; "packedData"; "signature"] ->
  ((forall s, read req_body k <> Str s) -> In (error k) (validateRequestFormat req_body)) /\
  (~ In (error k) (validateRequestFormat req_body) ->
   exists s, read req_body k = Str s /\ all_whitespace s = false).
Proof.
  intros Hk.
  assert (Hin : In (error k) (validateRequestFormat req_body) <->
                isNullOrWhiteSpace (read req_body k) = true).
  { rewrite In_validateRequestFormat.
    simpl in Hk. destruct Hk as [<- | [<- | [<- | [<- | []]]]];
      intuition discriminate. }
  rewrite Hin. split.
  - intros Hs. destruct (read req_body k); try reflexivity. now destruct (Hs s).
  - intros Hn. destruct (isNullOrWhiteSpace (read req_body k)) eqn:E; [tauto |].
    assert (Hb : non_blank (read req_body k)).
    { destruct (read req_body k) eqn:Er; try discriminate.
      exists s. split; [reflexivity |].
      destruct (all_whitespace s) eqn:Ew; [|reflexivity].
      apply trim_empty in Ew. simpl in E. rewrite Ew in E. discriminate. }
    exact Hb.
Qed.

Lemma non_string_field_rejected_witness :
  In "token" ["token"; "subject"; "packedData"; "signature"] /\
  In (error "token")
    (validateRequestFormat
       (Obj [("token", Bool true); ("subject", Str "0xa11ce");
             ("data", Arr [Obj []]); ("packedData", Str "0xab");
             ("signature", Str "sig")])).
Proof.
  split; [simpl; auto |].
  apply (non_string_field_rejected
           (Obj [("token", Bool true); ("subject", Str "0xa11ce");
                 ("data", Arr [Obj []]); ("packedData", Str "0xab");
                 ("signature", Str "sig")]) "token").
  - simpl; auto.
  - intros s. vm_compute. discriminate.
Defined.

(** ** Off-chain identity *)



Section OffChainIdentity.

Context {ext : Externals}.





End OffChainIdentity.



(** ** On-chain cross-validation *)

Lemma checkDecodedLogs_push (subject : value) (errors : list TError) (dl : TDecodedLogsAndData) :
  checkDecodedLogs subject errors dl = errors ++ checkDecodedLogs subject [] dl.
Proof.
  unfold checkDecodedLogs, push.
  destruct (find _ (logs dl)) as [l|]; [|reflexivity].
  destruct (strict_eq subject _), (strict_eq (read (shareData dl) "attester") _),
    (strict_eq (read (shareData dl) "layer2Hash") _); simpl;
    rewrite <- ?app_assoc, ?app_nil_r; reflexivity.
Qed.

Lemma fold_checkDecodedLogs (subject : value) (l : list TDecodedLogsAndData) :
  forall errors,
    fold_left (checkDecodedLogs subject) l errors =
      errors ++ flat_map (checkDecodedLogs subject []) l.
Proof.
  induction l as [|dl l IH]; intros errors; simpl; [now rewrite app_nil_r |].
  now rewrite IH, checkDecodedLogs_push, app_assoc.
Qed.

(** The errors of the stage are those of each pair, in the order of the
    pairs. *)
Lemma validateOnChainProperties_flat_map (subject : value) (l : list TDecodedLogsAndData) :
  validateOnChainProperties subject l = flat_map (checkDecodedLogs subject []) l.
Proof. unfold validateOnChainProperties. now rewrite fold_checkDecodedLogs. Qed.

Lemma validateOnChainProperties_app (subject : value) (l1 l2 : list TDecodedLogsAndData) :
  validateOnChainProperties subject (l1 ++ l2) =
    validateOnChainProperties subject l1 ++ validateOnChainProperties subject l2.
Proof. rewrite !validateOnChainProperties_flat_map. apply flat_map_app. Qed.

(** C6. A pair whose logs hold no log named [TraitAttested] contributes
    exactly one error, keyed [TraitAttested], whatever its record and the
    claimed subject are, and the pairs before and after it are validated as
    they are without it. *)
Theorem missing_TraitAttested (subject : value) (dl : TDecodedLogsAndData)
  (before after : list TDecodedLogsAndData) :
  (forall l, In l (logs dl) -> log_name l <> "TraitAttested") ->
  validateOnChainProperties subject (before ++ dl :: after) =
    validateOnChainProperties subject before ++
    [error "TraitAttested"] ++
    validateOnChainProperties subject after.
Proof.
  intros Hno.
  change (dl :: after) with ([dl] ++ after).
  rewrite !validateOnChainProperties_app. f_equal. f_equal.
  unfold validateOnChainProperties. simpl. unfold checkDecodedLogs.
  destruct (find _ (logs dl)) as [l|] eqn:E; [|reflexivity].
  apply find_some in E as [Hin Hname]. apply String.eqb_eq in Hname.
  now destruct (Hno l Hin).
Qed.

Lemma missing_TraitAttested_witness :
  validateOnChainProperties (Str "0xa11ce")
    ([ {| shareData := record "0x01" "0xb0b"; logs := [attested "0xb0b"] |} ] ++
     {| shareData := record "0x02" "0xb0b"; logs := [] |} ::
     [ {| shareData := record "0x03" "0xb0b"; logs := [attested "0xe5e"] |} ]) =
    validateOnChainProperties (Str "0xa11ce")
      [ {| shareData := record "0x01" "0xb0b"; logs := [attested "0xb0b"] |} ] ++
    [error "TraitAttested"] ++
    validateOnChainProperties (Str "0xa11ce")
      [ {| shareData := record "0x03" "0xb0b"; logs := [attested "0xe5e"] |} ].
Proof.
  apply (missing_TraitAttested (Str "0xa11ce")
           {| shareData := record "0x02" "0xb0b"; logs := [] |}).
  intros l [].
Defined.

(** ** The handler *)

Lemma format_ok_data (req_body : value) :
  validateRequestFormat req_body = [] ->
  exists x rest, read req_body "data" = Arr (x :: rest).
Proof.
  intros H.
  destruct (not_nonempty_array (read req_body "data")) eqn:E.
  - assert (Hin : In (error "data") (validateRequestFormat req_body))
      by (apply In_validateRequestFormat; tauto).
    rewrite H in Hin. destruct Hin.
  - destruct (read req_body "data") as [| | | | | [|x rest] |]; try discriminate. eauto.
Qed.

Lemma format_ok_token (req_body : value) :
  validateRequestFormat req_body = [] ->
  exists t, read req_body "token" = Str t.
Proof.
  intros H.
  destruct (isNullOrWhiteSpace (read req_body "token")) eqn:E.
  - assert (Hin : In (error "token") (validateRequestFormat req_body))
      by (apply In_validateRequestFormat; tauto).
    rewrite H in Hin. destruct Hin.
  - destruct (read req_body "token"); try discriminate. eauto.
Qed.

Lemma forallb_is_empty {A B : Type} (f : A -> list B) (l : list A) :
  forallb (fun v => is_empty (f v)) l = true <-> (forall v, In v l -> f v = []).
Proof.
  rewrite forallb_forall. split; intros H v Hv; specialize (H v Hv).
  - now destruct (f v).
  - now rewrite H.
Qed.


Section Receive.

Context {ext : Externals}.
Variable provider : string.

(** The handler once the request has passed the shape validator. *)
Lemma receive_after_format (req_body : value) (data0 : list value) (completion : list nat) :
  validateRequestFormat req_body = [] ->
  read req_body "data" = Arr data0 ->
  receive provider req_body completion =
    let shareKitResData := canonical req_body data0 in
    let data := map sortObject data0 in
    if negb (is_empty (validateBasicOffChainProperties shareKitResData)) then
      ([RequestFormat; BasicOffChain],
       Sent {| status := 400;
               body := ErrorList (validateBasicOffChainProperties shareKitResData) |})
    else if negb (forallb (fun v => is_empty (errors v)) (map verifyRecord data)) then
      ([RequestFormat; BasicOffChain; OffChainIntegrity],
       Sent {| status := 400; body := RecordResults (map verifyRecord data) |})
    else
      match fetchAll provider data completion with
      | Some decodedDataAndLogs =>
          if negb (is_empty (validateOnChainProperties
                               (read shareKitResData "subject") decodedDataAndLogs))
          then
            (all_stages,
             Sent {| status := 400;
                     body := ErrorList (validateOnChainProperties
                                          (read shareKitResData "subject")
                                          decodedDataAndLogs) |})
          else
            (all_stages,
             Sent {| status := 200; body := Success (read req_body "token") |})
      | None => ([RequestFormat; BasicOffChain; OffChainIntegrity; LogFetch], Rejected)
      end.
Proof.
  intros Hf Hd. unfold receive. rewrite Hf. simpl negb. cbv iota.
  rewrite read_sortObject by discriminate. rewrite Hd.
  change (sortChild (Arr data0)) with (Arr data0). cbv iota beta zeta.
  fold (canonical req_body data0).
  rewrite (read_canonical req_body data0 "data") by discriminate. simpl String.eqb.
  reflexivity.
Qed.

(** X16. Every pair pushed by a fetch holds a record of [data] and the
    logs of that record's own transaction. *)
Lemma fetchAll_correlated (data : list value) (completion : list nat)
  (decodedDataAndLogs : list TDecodedLogsAndData) :
  fetchAll provider data completion = Some decodedDataAndLogs ->
  forall dl, In dl decodedDataAndLogs ->
    In (shareData dl) data /\
    getDecodedTxEventLogs provider (read (shareData dl) "tx") = Some (logs dl).
Proof.
  unfold fetchAll. destruct (forallb _ data); [|discriminate]. intros [= <-].
  assert (H : forall acc,
             (forall dl, In dl acc ->
                In (shareData dl) data /\
                getDecodedTxEventLogs provider (read (shareData dl) "tx") = Some (logs dl)) ->
             forall dl, In dl (fold_left (pushFetched provider data) completion acc) ->
                In (shareData dl) data /\
                getDecodedTxEventLogs provider (read (shareData dl) "tx") = Some (logs dl)).
  { induction completion as [|i rest IH]; intros acc Hacc; simpl; [exact Hacc |].
    apply IH. intros dl. unfold pushFetched, push.
    destruct (nth_error data i) as [d|] eqn:Ei; [|apply Hacc].
    destruct (getDecodedTxEventLogs provider (read d "tx")) as [l|] eqn:El; [|apply Hacc].
    rewrite in_app_iff. intros [Hin | [<- | []]]; [now apply Hacc |].
    simpl. split; [eapply nth_error_In; eauto | exact El]. }
  apply H. intros dl [].
Qed.

(** X17. The pairs are pushed in the order in which the fetches
    complete. *)
Lemma fetchAll_completion_order (data : list value) (completion : list nat)
  (decodedDataAndLogs : list TDecodedLogsAndData) :
  fetchAll provider data completion = Some decodedDataAndLogs ->
  Forall (fun i => i < List.length data) completion ->
  map Some (map shareData decodedDataAndLogs) = map (nth_error data) completion.
Proof.
  unfold fetchAll.
  destruct (forallb _ data) eqn:Hall; [|discriminate]. intros [= <-] Hlt.
  rewrite forallb_forall in Hall.
  assert (H : forall acc,
             map Some (map shareData (fold_left (pushFetched provider data) completion acc)) =
               map Some (map shareData acc) ++ map (nth_error data) completion).
  { induction Hlt as [|i rest Hi Hrest IH]; intros acc; simpl; [now rewrite app_nil_r |].
    rewrite IH. unfold pushFetched, push.
    destruct (nth_error data i) as [d|] eqn:Ei.
    - specialize (Hall d (nth_error_In _ _ Ei)).
      destruct (getDecodedTxEventLogs provider (read d "tx")); [|discriminate].
      rewrite !map_app, <- app_assoc. reflexivity.
    - apply nth_error_None in Ei. lia. }
  apply H.
Qed.

End Receive.

Section Orchestration.

Context {ext : Externals}.
Variable provider : string.


(** C9. A submission that passes every stage is answered with status 200
    and [{success: true, token}], where [token] is the token of the request
    body as submitted (a string, which canonicalization leaves as it is). *)
Theorem receive_success (req_body : value) (data0 : list value) (completion : list nat)
  (decodedDataAndLogs : list TDecodedLogsAndData) :
  validateRequestFormat req_body = [] ->
  read req_body "data" = Arr data0 ->
  validateBasicOffChainProperties (canonical req_body data0) = [] ->
  (forall d, In d (map sortObject data0) -> verifyOffChainDataIntegrity d = []) ->
  fetchAll provider (map sortObject data0) completion = Some decodedDataAndLogs ->
  validateOnChainProperties
    (read (canonical req_body data0) "subject") decodedDataAndLogs = [] ->
  receive provider req_body completion =
    (all_stages, Sent {| status := 200; body := Success (read req_body "token") |}) /\
  exists t,
    read req_body "token" = Str t /\ read (canonical req_body data0) "token" = Str t.
Proof.
  intros Hf Hd Hb Hr Hfetch Ho. split.
  - rewrite (receive_after_format provider _ _ completion Hf Hd). cbv zeta.
    rewrite Hb. cbn [negb is_empty].
    assert (Hall : forallb (fun v => is_empty (errors v))
                     (map verifyRecord (map sortObject data0)) = true).
    { apply forallb_is_empty. intros v Hv.
      apply in_map_iff in Hv as [d [<- Hin]]. simpl. now apply Hr. }
    rewrite Hall, Hfetch, Ho. reflexivity.
  - destruct (format_ok_token _ Hf) as [t Ht]. exists t. split; [exact Ht |].
    rewrite read_canonical by discriminate. simpl. now rewrite Ht.
Qed.

End Orchestration.

Lemma receive_success_witness :
  @receive demo "http://localhost:8545"
    (submission "ab" "0xab" "sig:0xab" [record "0x01" "0xb0b"]) [0] =
    (all_stages,
     Sent {| status := 200;
             body := Success (read (submission "ab" "0xab" "sig:0xab" [record "0x01" "0xb0b"])
                                "token") |}) /\
  exists t,
    read (submission "ab" "0xab" "sig:0xab" [record "0x01" "0xb0b"]) "token" = Str t /\
    read (canonical (submission "ab" "0xab" "sig:0xab" [record "0x01" "0xb0b"])
            [record "0x01" "0xb0b"]) "token" = Str t.
Proof.
  apply (@receive_success demo "http://localhost:8545"
           (submission "ab" "0xab" "sig:0xab" [record "0x01" "0xb0b"])
           [record "0x01" "0xb0b"] [0]
           [ {| shareData := sortObject (record "0x01" "0xb0b");
                logs := [attested "0xb0b"] |} ]).
  - vm_compute. reflexivity.
  - reflexivity.
  - vm_compute. reflexivity.
  - intros d [<- | []]. vm_compute. reflexivity.
  - vm_compute. reflexivity.
  - vm_compute. reflexivity.
Defined.

(** C3 fails on the code.  Two records, the first with a transaction
    that emitted nothing and the second attested by another address: when
    the fetches complete in the order of [data] the errors are
    [TraitAttested] then [attester]; when the second fetch completes first
    they are [attester] then [TraitAttested].  The per-record results of the
    off-chain integrity stage do not depend on the completion order. *)
Lemma onchain_errors_follow_completion :
  let req_body :=
    submission "ab" "0xab" "sig:0xab" [record "0x02" "0xb0b"; record "0x03" "0xb0b"] in
  snd (@receive demo "http://localhost:8545" req_body [0; 1]) =
    Sent {| status := 400;
            body := ErrorList [error "TraitAttested"; error "attester"] |} /\
  snd (@receive demo "http://localhost:8545" req_body [1; 0]) =
    Sent {| status := 400;
            body := ErrorList [error "attester"; error "TraitAttested"] |}.
Proof. split; vm_compute; reflexivity. Qed.

(** * Further properties of the code *)

(** ** Key order does not matter to [sortObject] *)

Lemma sortObject_ext (x y : value) :
  (forall k, In k (keys x) <-> In k (keys y)) ->
  (forall k, sortChild (read x k) = sortChild (read y k)) ->
  sortObject x = sortObject y.
Proof.
  intros Hk Hv. rewrite (sortObject_eq x), (sortObject_eq y). f_equal.
  apply ordered_ext; try apply fill_ordered.
  - intros k. rewrite !In_fill, !In_sortBy, Hk. tauto.
  - intros k. rewrite !obj_get_fill, Hv.
    assert (E : mem k (sortBy (keys x)) = mem k (sortBy (keys y))).
    { destruct (mem k (sortBy (keys x))) eqn:Ex, (mem k (sortBy (keys y))) eqn:Ey;
        try reflexivity.
      - apply mem_In, In_sortBy, Hk, In_sortBy, mem_In in Ex. congruence.
      - apply mem_In, In_sortBy, Hk, In_sortBy, mem_In in Ey. congruence. }
    now rewrite E.
Qed.

Lemma reordered_sortChild (x y : value) :
  reordered x y -> sortObject x = sortObject y /\ sortChild x = sortChild y.
Proof.
  induction 1 as [v | p q Hk Hr IH]; [split; reflexivity |].
  assert (E : sortObject (Obj p) = sortObject (Obj q)).
  { apply sortObject_ext; [exact Hk |]. intros k. apply (IH k). }
  split; [exact E |]. unfold sortChild. simpl. exact E.
Qed.

(** X1. Two trees that differ only in the order of the keys of their
    mappings (at any depth reached through mappings) have the same
    [sortObject]. *)
Theorem sortObject_key_order (x y : value) :
  reordered x y -> sortObject x = sortObject y.
Proof. intros H. apply (reordered_sortChild x y H). Qed.

Lemma sortObject_key_order_witness :
  sortObject
    (Obj [("token", Str "ab");
          ("meta", Obj [("b", Bool true); ("a", Null)])]) =
  sortObject
    (Obj [("meta", Obj [("a", Null); ("b", Bool true)]);
          ("token", Str "ab")]).
Proof.
  apply (sortObject_key_order
           (Obj [("token", Str "ab");
                 ("meta", Obj [("b", Bool true); ("a", Null)])])
           (Obj [("meta", Obj [("a", Null); ("b", Bool true)]);
                 ("token", Str "ab")])).
  apply reordered_obj.
  - intros k. simpl. tauto.
  - intros k. simpl.
    destruct (String.eqb k "token") eqn:Et.
    + apply String.eqb_eq in Et. subst k. simpl. apply reordered_same.
    + destruct (String.eqb k "meta"); [|apply reordered_same].
      apply reordered_obj.
      * intros k'. simpl. tauto.
      * intros k'. simpl.
        destruct (String.eqb k' "b") eqn:Eb.
        -- apply String.eqb_eq in Eb. subst k'. simpl. apply reordered_same.
        -- destruct (String.eqb k' "a"); apply reordered_same.
Defined.

(** ** Key order does not matter to the handler *)

Lemma reordered_scalar (x y : value) :
  reordered x y -> (forall p, x <> Obj p) -> y = x.
Proof.
  intros H Hx. destruct H as [v | p q]; [reflexivity |]. now destruct (Hx p).
Qed.

Lemma reordered_isNullOrWhiteSpace (x y : value) :
  reordered x y -> isNullOrWhiteSpace x = isNullOrWhiteSpace y.
Proof. intros H. now destruct H. Qed.

Lemma Forall2_reordered_map (dp dq : list value) :
  Forall2 reordered dp dq -> map sortObject dp = map sortObject dq.
Proof.
  induction 1 as [|a b dp dq Hab _ IH]; simpl; [reflexivity |].
  now rewrite (proj1 (reordered_sortChild a b Hab)), IH.
Qed.

Lemma set_existing_ordered (A : list (string * value)) (k : string) (v : value) :
  key_ordered A -> In k (map fst A) -> key_ordered (obj_set A k v).
Proof.
  intros HA Hin. unfold obj_set.
  destruct (String.eqb k "__proto__"); [exact HA |].
  apply obj_has_In in Hin. rewrite Hin.
  unfold key_ordered. now rewrite keys_replace.
Qed.

Lemma get_present (p : list (string * value)) (k : string) :
  obj_get p k <> Undefined -> In k (map fst p).
Proof.
  intros H. destruct (obj_has p k) eqn:E; [now apply obj_has_In |].
  now apply obj_has_false_get in E.
Qed.

Lemma mem_sortBy_keys (x y : value) (k : string) :
  (forall k, In k (keys x) <-> In k (keys y)) ->
  mem k (sortBy (keys x)) = mem k (sortBy (keys y)).
Proof.
  intros Hk.
  destruct (mem k (sortBy (keys x))) eqn:Ex, (mem k (sortBy (keys y))) eqn:Ey;
    try reflexivity.
  - apply mem_In, In_sortBy, Hk, In_sortBy, mem_In in Ex. congruence.
  - apply mem_In, In_sortBy, Hk, In_sortBy, mem_In in Ey. congruence.
Qed.

Lemma reordered_request_canonical (x y : value) (dp dq : list value) :
  (forall k, In k (keys x) <-> In k (keys y)) ->
  read x "data" = Arr dp ->
  Forall2 reordered dp dq ->
  (forall k, k <> "data" -> reordered (read x k) (read y k)) ->
  canonical x dp = canonical y dq.
Proof.
  intros Hk Hdp Hd Hr. unfold canonical.
  rewrite (Forall2_reordered_map dp dq Hd).
  rewrite (sortObject_eq x), (sortObject_eq y). unfold assign. f_equal.
  assert (Hin : forall z, In "data" (keys z) ->
            In "data" (map fst (fill (fun key => sortChild (read z key)) (sortBy (keys z))))).
  { intros z Hz. apply In_fill. split; [now apply In_sortBy | discriminate]. }
  assert (Hx : In "data" (keys x)).
  { apply get_present. unfold read in Hdp. rewrite Hdp. discriminate. }
  apply ordered_ext.
  - apply set_existing_ordered; [apply fill_ordered | now apply Hin].
  - apply set_existing_ordered; [apply fill_ordered | apply Hin, Hk, Hx].
  - intros k. rewrite !In_set, !In_fill, !In_sortBy, Hk. tauto.
  - intros k. rewrite !obj_get_set, !obj_get_fill, (mem_sortBy_keys x y k Hk).
    destruct (String.eqb_spec k "data") as [->|Hkd]; simpl; [reflexivity |].
    destruct (mem k (sortBy (keys y)) && negb (String.eqb k "__proto__"));
      [|reflexivity].
    apply reordered_sortChild. now apply Hr.
Qed.

Section KeyOrder.

Context {ext : Externals}.
Variable provider : string.

(** X2. Two request bodies that differ only in the order of their keys,
    of the keys of the records of [data], and of the keys of the mappings
    below them receive the same answer. *)
Theorem receive_key_order (x y : value) (completion : list nat) :
  reordered_request x y ->
  receive provider x completion = receive provider y completion.
Proof.
  intros H. destruct H as [p q dp dq Hk Hdp Hdq Hd Hr].
  assert (Hflag : forall k, k <> "data" ->
            isNullOrWhiteSpace (read (Obj p) k) = isNullOrWhiteSpace (read (Obj q) k)).
  { intros k Hkd. apply reordered_isNullOrWhiteSpace. now apply Hr. }
  assert (Hdata : not_nonempty_array (read (Obj p) "data") =
                  not_nonempty_array (read (Obj q) "data")).
  { unfold read. simpl own_props. rewrite Hdp, Hdq. now destruct Hd. }
  assert (Hf : validateRequestFormat (Obj p) = validateRequestFormat (Obj q)).
  { rewrite !validateRequestFormat_rules, Hdata, !Hflag by discriminate. reflexivity. }
  destruct (validateRequestFormat (Obj q)) as [|e errs] eqn:Hq.
  - rewrite (receive_after_format provider (Obj p) dp completion Hf Hdp).
    rewrite (receive_after_format provider (Obj q) dq completion Hq Hdq).
    rewrite (reordered_request_canonical (Obj p) (Obj q) dp dq Hk Hdp Hd Hr).
    rewrite (Forall2_reordered_map dp dq Hd).
    destruct (format_ok_token _ Hf) as [t Ht].
    assert (Ht' : read (Obj q) "token" = read (Obj p) "token").
    { apply reordered_scalar; [apply Hr; discriminate |].
      intros p0. rewrite Ht. discriminate. }
    rewrite Ht'. reflexivity.
  - unfold receive. rewrite Hf, Hq. reflexivity.
Qed.

End KeyOrder.

Ltac by_key k :=
  simpl;
  repeat match goal with
         | |- context [String.eqb k ?s] =>
             destruct (String.eqb_spec k s) as [->|]; [simpl; try apply reordered_same |]
         end;
  try apply reordered_same.

Lemma receive_key_order_witness :
  @receive demo "http://localhost:8545"
    (submission "ab" "0xab" "sig:0xab" [record "0x01" "0xb0b"]) [0] =
  @receive demo "http://localhost:8545"
    (Obj [("signature", Str "sig:0xab"); ("packedData", Str "0xab");
          ("data", Arr [Obj [("attester", Str "0xb0b"); ("tx", Str "0x01");
                             ("layer2Hash", Str "0xd1")]]);
          ("subject", Str "0xa11ce"); ("token", Str "ab")]) [0].
Proof.
  apply (@receive_key_order demo "http://localhost:8545").
  apply (reordered_request_obj _ _
           [record "0x01" "0xb0b"]
           [Obj [("attester", Str "0xb0b"); ("tx", Str "0x01");
                 ("layer2Hash", Str "0xd1")]]).
  - intros k. simpl. tauto.
  - reflexivity.
  - reflexivity.
  - constructor; [|constructor]. apply reordered_obj.
    + intros k. simpl. tauto.
    + intros k. by_key k.
  - intros k Hk. by_key k. contradiction.
Defined.

(** ** What [sortObject] and the canonical submission hold *)

Lemma key_ordered_NoDup (A : list (string * value)) :
  key_ordered A -> NoDup (map fst A).
Proof.
  unfold key_ordered. induction 1 as [|a l Hs IH Hall]; constructor; [|exact IH].
  intros Hin. rewrite Forall_forall in Hall. exact (js_lt_irrefl a (Hall a Hin)).
Qed.

Lemma sortChild_not_null (v : value) : sortChild v <> Null.
Proof.
  unfold sortChild. destruct (plain_object v) eqn:E.
  - rewrite sortObject_eq. discriminate.
  - intros H. rewrite H in E. discriminate.
Qed.

(** X3. In the result of [sortObject] no key is given twice, no key is
    [__proto__], and no key holds null: a null under a key of the input
    comes back as an empty mapping. *)
Theorem sortObject_output (x : value) :
  NoDup (keys (sortObject x)) /\
  ~ In "__proto__" (keys (sortObject x)) /\
  (forall k, read (sortObject x) k <> Null) /\
  (forall k, k <> "__proto__" -> read x k = Null -> read (sortObject x) k = Obj []).
Proof.
  split; [|split; [|split]].
  - rewrite sortObject_eq. unfold keys. simpl own_props.
    apply key_ordered_NoDup, fill_ordered.
  - rewrite keys_sortObject. tauto.
  - intros k. rewrite sortObject_eq. unfold read. simpl own_props.
    rewrite obj_get_fill.
    destruct (mem k (sortBy (keys x)) && negb (String.eqb k "__proto__"));
      [apply sortChild_not_null | discriminate].
  - intros k Hk Hn. rewrite read_sortObject by exact Hk. now rewrite Hn.
Qed.

Lemma format_ok_string (req_body : value) (k : string) :
  validateRequestFormat req_body = [] ->
  In k ["token"; "subject"; "packedData"; "signature"] ->
  exists s, read req_body k = Str s.
Proof.
  intros H Hk.
  destruct (isNullOrWhiteSpace (read req_body k)) eqn:E.
  - assert (Hin : In (error k) (validateRequestFormat req_body)).
    { apply In_validateRequestFormat.
      simpl in Hk. destruct Hk as [<- | [<- | [<- | [<- | []]]]]; tauto. }
    rewrite H in Hin. destruct Hin.
  - destruct (read req_body k); try discriminate. eauto.
Qed.

Lemma canonical_fields (req_body : value) (data : list value) (k : string) :
  validateRequestFormat req_body = [] ->
  In k ["token"; "subject"; "packedData"; "signature"] ->
  read (canonical req_body data) k = read req_body k.
Proof.
  intros H Hk. destruct (format_ok_string req_body k H Hk) as [s Hs].
  assert (Hnd : String.eqb k "data" = false /\ k <> "__proto__").
  { simpl in Hk. destruct Hk as [<- | [<- | [<- | [<- | []]]]];
      split; (reflexivity || discriminate). }
  destruct Hnd as [Hd Hp].
  rewrite read_canonical by exact Hp. rewrite Hd, Hs. reflexivity.
Qed.

(** X4. For a request that passes the shape validator, the canonical
    submission holds the [token], [subject], [packedData] and [signature]
    of the request as they were submitted, and its keys are those of the
    request other than [__proto__]. *)
Theorem canonical_keeps_fields (req_body : value) (data : list value) (k : string) :
  validateRequestFormat req_body = [] ->
  In k ["token"; "subject"; "packedData"; "signature"] ->
  read (canonical req_body data) k = read req_body k /\
  (forall k', In k' (keys (canonical req_body data)) <->
              In k' (keys req_body) /\ k' <> "__proto__").
Proof.
  intros H Hk. split; [now apply canonical_fields |].
  intros k'. unfold canonical. rewrite sortObject_eq. unfold assign, keys at 1.
  simpl own_props. rewrite In_set, In_fill, In_sortBy.
  destruct (format_ok_data _ H) as [x [rest Hd]].
  assert (Hin : In "data" (keys req_body)).
  { apply get_present. unfold read in Hd. rewrite Hd. discriminate. }
  split.
  - intros [[-> _] | Hk']; [split; [exact Hin | discriminate] | exact Hk'].
  - tauto.
Qed.

Lemma canonical_keeps_fields_witness :
  read (canonical (submission "ab" "0xab" "sig:0xab" [record "0x01" "0xb0b"])
          [record "0x01" "0xb0b"]) "signature" =
  read (submission "ab" "0xab" "sig:0xab" [record "0x01" "0xb0b"]) "signature".
Proof.
  apply (canonical_keeps_fields
           (submission "ab" "0xab" "sig:0xab" [record "0x01" "0xb0b"])
           [record "0x01" "0xb0b"] "signature").
  - vm_compute. reflexivity.
  - simpl. tauto.
Defined.


Section HashInput.

Context {ext : Externals}.

(** X5. For a request that passes the shape validator, the hash the
    handler compares with [packedData] is taken over the encoding of the
    object whose [data] is the sequence of the [sortObject] of the
    submitted records, in their order, and whose [token] is the submitted
    token; and the signer is recovered from the submitted [packedData] and
    [signature]. *)
Theorem canonical_hash_input (req_body : value) (data : list value) :
  validateRequestFormat req_body = [] ->
  read req_body "data" = Arr data ->
  recoveredPackedData (canonical req_body data) =
    String.append "0x"
      (keccak256
         (JSON_stringify
            (Obj [("data", Arr (map sortObject data));
                  ("token", read req_body "token")]))) /\
  signer_of (canonical req_body data) =
    recoverHashSigner (toBuffer (read req_body "packedData")) (read req_body "signature").
Proof.
  intros H _. unfold recoveredPackedData, signer_of.
  rewrite (read_canonical req_body data "data") by discriminate.
  rewrite !(canonical_fields req_body data) by (exact H || (simpl; tauto)).
  split; reflexivity.
Qed.

End HashInput.

Lemma canonical_hash_input_witness :
  @recoveredPackedData demo
    (canonical (submission "ab" "0xab" "sig:0xab" [record "0x01" "0xb0b"])
       [record "0x01" "0xb0b"]) =
    String.append "0x"
      (@keccak256 demo
         (@JSON_stringify demo
            (Obj [("data", Arr (map sortObject [record "0x01" "0xb0b"]));
                  ("token",
                   read (submission "ab" "0xab" "sig:0xab" [record "0x01" "0xb0b"])
                     "token")]))) /\
  @signer_of demo
    (canonical (submission "ab" "0xab" "sig:0xab" [record "0x01" "0xb0b"])
       [record "0x01" "0xb0b"]) =
    @recoverHashSigner demo
      (@toBuffer demo
         (read (submission "ab" "0xab" "sig:0xab" [record "0x01" "0xb0b"]) "packedData"))
      (read (submission "ab" "0xab" "sig:0xab" [record "0x01" "0xb0b"]) "signature").
Proof.
  apply (@canonical_hash_input demo
           (submission "ab" "0xab" "sig:0xab" [record "0x01" "0xb0b"])
           [record "0x01" "0xb0b"]).
  - vm_compute. reflexivity.
  - reflexivity.
Defined.

(** ** The checks of one record against its logs *)

Lemma strict_eq_spec (x : value) (y : option string) :
  strict_eq x y = true <-> x = of_log_value y.
Proof.
  destruct x, y; simpl; try (split; (discriminate || reflexivity)).
  rewrite String.eqb_eq. split; [now intros -> | now intros [= ->]].
Qed.

Lemma strict_neq_spec (x : value) (y : option string) :
  negb (strict_eq x y) = true <-> x <> of_log_value y.
Proof.
  rewrite negb_true_iff, <- not_true_iff_false, strict_eq_spec. tauto.
Qed.

Lemma validateOnChainProperties_one (subject : value) (dl : TDecodedLogsAndData) :
  validateOnChainProperties subject [dl] = checkDecodedLogs subject [] dl.
Proof. reflexivity. Qed.

Lemma checkDecodedLogs_found (subject : value) (dl : TDecodedLogsAndData) (l : TDecodedLog) :
  traitAttested (logs dl) = Some l ->
  checkDecodedLogs subject [] dl =
    rule (negb (strict_eq subject (getDecodedLogValueByName l "subject"))) "subject" ++
    rule (negb (strict_eq (read (shareData dl) "attester")
                  (getDecodedLogValueByName l "attester"))) "attester" ++
    rule (negb (strict_eq (read (shareData dl) "layer2Hash")
                  (getDecodedLogValueByName l "dataHash"))) "layer2Hash".
Proof.
  unfold traitAttested, checkDecodedLogs, rule, push. intros ->.
  destruct (strict_eq subject _), (strict_eq (read (shareData dl) "attester") _),
    (strict_eq (read (shareData dl) "layer2Hash") _); reflexivity.
Qed.

Lemma In_checkDecodedLogs_found (subject : value) (dl : TDecodedLogsAndData)
  (l : TDecodedLog) (k : string) :
  traitAttested (logs dl) = Some l ->
  In (error k) (checkDecodedLogs subject [] dl) <->
    (subject <> of_log_value (getDecodedLogValueByName l "subject") /\ k = "subject") \/
    (read (shareData dl) "attester" <>
       of_log_value (getDecodedLogValueByName l "attester") /\ k = "attester") \/
    (read (shareData dl) "layer2Hash" <>
       of_log_value (getDecodedLogValueByName l "dataHash") /\ k = "layer2Hash").
Proof.
  intros H. rewrite (checkDecodedLogs_found subject dl l H).
  rewrite !in_app_iff, !In_rule, !strict_neq_spec. tauto.
Qed.

(** X6. For a record whose logs hold a log named [TraitAttested], the
    first such log decides: [subject] is reported exactly when the claimed
    subject differs from the event field [subject], [attester] exactly when
    the record's [attester] differs from the event field [attester],
    [layer2Hash] exactly when the record's [layer2Hash] differs from the
    event field [dataHash]; [TraitAttested] is not reported and no error is
    reported twice. *)
Theorem onchain_record_checks (subject : value) (dl : TDecodedLogsAndData) (l : TDecodedLog) :
  traitAttested (logs dl) = Some l ->
  let errors := validateOnChainProperties subject [dl] in
  (In (error "subject") errors <->
     subject <> of_log_value (getDecodedLogValueByName l "subject")) /\
  (In (error "attester") errors <->
     read (shareData dl) "attester" <>
       of_log_value (getDecodedLogValueByName l "attester")) /\
  (In (error "layer2Hash") errors <->
     read (shareData dl) "layer2Hash" <>
       of_log_value (getDecodedLogValueByName l "dataHash")) /\
  ~ In (error "TraitAttested") errors /\
  NoDup errors.
Proof.
  intros H. cbv zeta. rewrite validateOnChainProperties_one.
  rewrite !(In_checkDecodedLogs_found subject dl l) by exact H.
  split; [intuition discriminate |].
  split; [intuition discriminate |].
  split; [intuition discriminate |].
  split; [intuition discriminate |].
  rewrite (checkDecodedLogs_found subject dl l H). unfold rule.
  destruct (strict_eq subject _), (strict_eq (read (shareData dl) "attester") _),
    (strict_eq (read (shareData dl) "layer2Hash") _); simpl;
    repeat (constructor; [simpl; intuition discriminate |]); constructor.
Qed.

Lemma onchain_record_checks_witness :
  let errors :=
    validateOnChainProperties (Str "0xa11ce")
      [ {| shareData := record "0x03" "0xb0b"; logs := [attested "0xe5e"] |} ] in
  (In (error "subject") errors <->
     Str "0xa11ce" <> of_log_value (getDecodedLogValueByName (attested "0xe5e") "subject")) /\
  (In (error "attester") errors <->
     read (record "0x03" "0xb0b") "attester" <>
       of_log_value (getDecodedLogValueByName (attested "0xe5e") "attester")) /\
  (In (error "layer2Hash") errors <->
     read (record "0x03" "0xb0b") "layer2Hash" <>
       of_log_value (getDecodedLogValueByName (attested "0xe5e") "dataHash")) /\
  ~ In (error "TraitAttested") errors /\
  NoDup errors.
Proof.
  apply (onchain_record_checks (Str "0xa11ce")
           {| shareData := record "0x03" "0xb0b"; logs := [attested "0xe5e"] |}
           (attested "0xe5e")).
  reflexivity.
Defined.

Lemma find_first {A : Type} (f : A -> bool) (pre post : list A) (a : A) :
  (forall b, In b pre -> f b = false) -> f a = true ->
  find f (pre ++ a :: post) = Some a.
Proof.
  intros Hpre Ha. induction pre as [|b pre IH]; simpl; [now rewrite Ha |].
  rewrite (Hpre b) by (simpl; auto). apply IH. intros c Hc. apply Hpre. simpl; auto.
Qed.

(** X7. Only the first log named [TraitAttested] is looked at: the logs
    before it and all the logs after it, [TraitAttested] or not, change
    nothing to the errors of the record. *)
Theorem first_TraitAttested_decides (subject : value) (dl : TDecodedLogsAndData)
  (pre post : list TDecodedLog) (l : TDecodedLog) :
  logs dl = pre ++ l :: post ->
  (forall l', In l' pre -> log_name l' <> "TraitAttested") ->
  log_name l = "TraitAttested" ->
  validateOnChainProperties subject [dl] =
    validateOnChainProperties subject [ {| shareData := shareData dl; logs := [l] |} ].
Proof.
  intros Hlogs Hpre Hl. rewrite !validateOnChainProperties_one.
  assert (H1 : traitAttested (logs dl) = Some l).
  { unfold traitAttested. rewrite Hlogs. apply find_first.
    - intros b Hb. apply String.eqb_neq. now apply Hpre.
    - now apply String.eqb_eq. }
  assert (H2 : traitAttested (logs {| shareData := shareData dl; logs := [l] |}) = Some l).
  { unfold traitAttested. simpl. apply String.eqb_eq in Hl. now rewrite Hl. }
  rewrite (checkDecodedLogs_found subject dl l H1).
  rewrite (checkDecodedLogs_found subject _ l H2). reflexivity.
Qed.

Lemma first_TraitAttested_decides_witness :
  validateOnChainProperties (Str "0xa11ce")
    [ {| shareData := record "0x01" "0xb0b";
         logs := [ {| log_address := "0xc0"; log_name := "Transfer"; log_events := [] |};
                   attested "0xe5e"; attested "0xb0b" ] |} ] =
  validateOnChainProperties (Str "0xa11ce")
    [ {| shareData := record "0x01" "0xb0b"; logs := [attested "0xe5e"] |} ].
Proof.
  apply (first_TraitAttested_decides (Str "0xa11ce")
           {| shareData := record "0x01" "0xb0b";
              logs := [ {| log_address := "0xc0"; log_name := "Transfer"; log_events := [] |};
                        attested "0xe5e"; attested "0xb0b" ] |}
           [ {| log_address := "0xc0"; log_name := "Transfer"; log_events := [] |} ]
           [attested "0xb0b"] (attested "0xe5e")).
  - reflexivity.
  - intros l' [<- | []]. simpl. discriminate.
  - reflexivity.
Defined.

(** X8. A field the record does not have is compared as [undefined]:
    for a record without [attester], [attester] is reported exactly when the
    log carries an event field [attester], and a log without that field
    passes; likewise for [layer2Hash] and the event field [dataHash]. *)
Theorem absent_field_matches_absent_event (subject : value) (dl : TDecodedLogsAndData)
  (l : TDecodedLog) :
  traitAttested (logs dl) = Some l ->
  (read (shareData dl) "attester" = Undefined ->
   (In (error "attester") (validateOnChainProperties subject [dl]) <->
    exists v, getDecodedLogValueByName l "attester" = Some v)) /\
  (read (shareData dl) "layer2Hash" = Undefined ->
   (In (error "layer2Hash") (validateOnChainProperties subject [dl]) <->
    exists v, getDecodedLogValueByName l "dataHash" = Some v)).
Proof.
  intros H. rewrite validateOnChainProperties_one.
  rewrite !(In_checkDecodedLogs_found subject dl l) by exact H.
  split; intros ->.
  - destruct (getDecodedLogValueByName l "attester") as [v|]; simpl; split.
    + eauto.
    + intros _. right. left. split; [discriminate | reflexivity].
    + intros [[_ E] | [[E _] | [_ E]]]; try discriminate. now destruct E.
    + intros [v E]. discriminate.
  - destruct (getDecodedLogValueByName l "dataHash") as [v|]; simpl; split.
    + eauto.
    + intros _. right. right. split; [discriminate | reflexivity].
    + intros [[_ E] | [[_ E] | [E _]]]; try discriminate. now destruct E.
    + intros [v E]. discriminate.
Qed.

Lemma absent_field_matches_absent_event_witness :
  (read (Obj [("tx", Str "0x01")]) "attester" = Undefined ->
   (In (error "attester")
      (validateOnChainProperties (Str "0xa11ce")
         [ {| shareData := Obj [("tx", Str "0x01")];
              logs := [ {| log_address := "0xc0"; log_name := "TraitAttested";
                           log_events := [] |} ] |} ]) <->
    exists v,
      getDecodedLogValueByName
        {| log_address := "0xc0"; log_name := "TraitAttested"; log_events := [] |}
        "attester" = Some v)) /\
  (read (Obj [("tx", Str "0x01")]) "layer2Hash" = Undefined ->
   (In (error "layer2Hash")
      (validateOnChainProperties (Str "0xa11ce")
         [ {| shareData := Obj [("tx", Str "0x01")];
              logs := [ {| log_address := "0xc0"; log_name := "TraitAttested";
                           log_events := [] |} ] |} ]) <->
    exists v,
      getDecodedLogValueByName
        {| log_address := "0xc0"; log_name := "TraitAttested"; log_events := [] |}
        "dataHash" = Some v)).
Proof.
  apply (absent_field_matches_absent_event (Str "0xa11ce")
           {| shareData := Obj [("tx", Str "0x01")];
              logs := [ {| log_address := "0xc0"; log_name := "TraitAttested";
                           log_events := [] |} ] |}
           {| log_address := "0xc0"; log_name := "TraitAttested"; log_events := [] |}).
  reflexivity.
Defined.

(** X9. [getDecodedLogValueByName] returns the value of the first event
    field with the given name, also when that value is the empty string,
    and [undefined] exactly when the log has no event field of that name. *)
Theorem getDecodedLogValueByName_first (decodedLog : TDecodedLog) (name : string) :
  (getDecodedLogValueByName decodedLog name = None <->
   forall e, In e (log_events decodedLog) -> event_name e <> name) /\
  (forall pre e post,
     log_events decodedLog = pre ++ e :: post ->
     (forall e', In e' pre -> event_name e' <> name) ->
     event_name e = name ->
     getDecodedLogValueByName decodedLog name = Some (event_value e)).
Proof.
  unfold getDecodedLogValueByName. split.
  - destruct (find _ (log_events decodedLog)) as [e|] eqn:E; split.
    + discriminate.
    + intros H. apply find_some in E as [Hin He]. apply String.eqb_eq in He.
      now destruct (H e Hin).
    + intros _ e He Hn.
      apply (find_none _ _ E) in He. apply String.eqb_neq in He. contradiction.
    + reflexivity.
  - intros pre e post Hev Hpre He. rewrite Hev.
    rewrite (find_first _ pre post e); [reflexivity | |].
    + intros b Hb. apply String.eqb_neq. now apply Hpre.
    + now apply String.eqb_eq.
Qed.

(** X10. The errors of the on-chain stage are keyed [TraitAttested],
    [subject], [attester] or [layer2Hash]; there are at most three per
    record; and there is none exactly when every record passes on its
    own. *)
Theorem validateOnChainProperties_shape (subject : value)
  (decodedLogsAndData : list TDecodedLogsAndData) :
  let errors := validateOnChainProperties subject decodedLogsAndData in
  (forall e, In e errors ->
     In e (map error ["TraitAttested"; "subject"; "attester"; "layer2Hash"])) /\
  List.length errors <= 3 * List.length decodedLogsAndData /\
  (errors = [] <->
   forall dl, In dl decodedLogsAndData -> validateOnChainProperties subject [dl] = []).
Proof.
  cbv zeta.
  assert (Hone : forall dl,
            (forall e, In e (checkDecodedLogs subject [] dl) ->
               In e (map error ["TraitAttested"; "subject"; "attester"; "layer2Hash"])) /\
            List.length (checkDecodedLogs subject [] dl) <= 3).
  { intros dl. destruct (traitAttested (logs dl)) as [l|] eqn:E.
    - rewrite (checkDecodedLogs_found subject dl l E). unfold rule.
      destruct (strict_eq subject _), (strict_eq (read (shareData dl) "attester") _),
        (strict_eq (read (shareData dl) "layer2Hash") _); simpl;
        (split; [intros e He; tauto | lia]).
    - unfold traitAttested in E. unfold checkDecodedLogs. rewrite E. simpl.
      split; [intros e He; tauto | lia]. }
  rewrite validateOnChainProperties_flat_map.
  split; [|split].
  - intros e He. apply in_flat_map in He as [dl [_ He]]. now apply (Hone dl).
  - induction decodedLogsAndData as [|dl rest IH]; simpl; [lia |].
    rewrite length_app. pose proof (proj2 (Hone dl)). lia.
  - split.
    + intros H dl Hin. rewrite validateOnChainProperties_one.
      destruct (checkDecodedLogs subject [] dl) as [|e es] eqn:E; [reflexivity |].
      assert (Hin' : In e (flat_map (checkDecodedLogs subject []) decodedLogsAndData)).
      { apply in_flat_map. exists dl. split; [exact Hin |]. rewrite E. simpl; auto. }
      rewrite H in Hin'. destruct Hin'.
    + intros H. induction decodedLogsAndData as [|dl rest IH]; simpl; [reflexivity |].
      rewrite <- validateOnChainProperties_one, (H dl) by (simpl; auto).
      apply IH. intros dl' Hin. apply H. simpl; auto.
Qed.

(** ** The fetches and the verdict *)

Section Verdict.

Context {ext : Externals}.
Variable provider : string.

Lemma fold_pushFetched (data : list value) (completion : list nat) :
  forall acc,
    fold_left (pushFetched provider data) completion acc =
      acc ++ flat_map (fetchedAt provider data) completion.
Proof.
  induction completion as [|i rest IH]; intros acc; simpl; [now rewrite app_nil_r |].
  rewrite IH. unfold pushFetched, fetchedAt, push.
  destruct (nth_error data i) as [d|]; [|reflexivity].
  destruct (getDecodedTxEventLogs provider (read d "tx")); [|reflexivity].
  now rewrite <- app_assoc.
Qed.


(** X11. The fetch stage fails exactly when the receipt of the
    transaction of some record cannot be fetched, whatever the order in
    which the other fetches complete. *)
Theorem fetchAll_rejects (data : list value) (completion : list nat) :
  fetchAll provider data completion = None <->
  exists d, In d data /\ getTransactionReceipt provider (read d "tx") = None.
Proof.
  unfold fetchAll, getDecodedTxEventLogs. split.
  - destruct (forallb _ data) eqn:Hall; [discriminate |]. intros _.
    induction data as [|d rest IH]; simpl in Hall; [discriminate |].
    destruct (getTransactionReceipt provider (read d "tx")) eqn:E.
    + simpl in Hall. destruct (IH Hall) as [d' [Hin Hd']]. exists d'. simpl; auto.
    + exists d. simpl; auto.
  - intros [d [Hin Hd]].
    destruct (forallb _ data) eqn:Hall; [|reflexivity].
    rewrite forallb_forall in Hall. specialize (Hall d Hin).
    rewrite Hd in Hall. discriminate.
Qed.

Lemma fetchAll_perm (data : list value) (c1 c2 : list nat) :
  Permutation c1 c2 ->
  match fetchAll provider data c1, fetchAll provider data c2 with
  | Some l1, Some l2 => Permutation l1 l2
  | None, None => True
  | _, _ => False
  end.
Proof.
  intros Hp. unfold fetchAll. destruct (forallb _ data); [|exact I].
  rewrite !fold_pushFetched. simpl. now apply Permutation_flat_map.
Qed.

Lemma Permutation_is_empty {A : Type} (l1 l2 : list A) :
  Permutation l1 l2 -> is_empty l1 = is_empty l2.
Proof.
  intros H. destruct l1, l2; try reflexivity.
  - apply Permutation_nil in H. discriminate.
  - apply Permutation_sym, Permutation_nil in H. discriminate.
Qed.

(** X12. The order in which the fetches complete changes nothing to the
    stages entered, to the status of the answer or to its errors, except
    for the order of the errors of the on-chain stage. *)
Theorem completion_order_keeps_verdict (req_body : value) (c1 c2 : list nat) :
  Permutation c1 c2 ->
  fst (receive provider req_body c1) = fst (receive provider req_body c2) /\
  same_up_to_order (snd (receive provider req_body c1)) (snd (receive provider req_body c2)).
Proof.
  intros Hp.
  destruct (validateRequestFormat req_body) as [|e errs] eqn:Hf.
  - destruct (format_ok_data _ Hf) as [x [rest Hd]].
    rewrite !(receive_after_format provider _ _ _ Hf Hd). cbv zeta.
    destruct (is_empty (validateBasicOffChainProperties (canonical req_body (x :: rest))));
      cbn [negb]; [|simpl; auto].
    destruct (forallb _ (map verifyRecord (map sortObject (x :: rest))));
      cbn [negb]; [|simpl; auto].
    pose proof (fetchAll_perm (map sortObject (x :: rest)) c1 c2 Hp) as Hfetch.
    destruct (fetchAll provider (map sortObject (x :: rest)) c1) as [l1|],
      (fetchAll provider (map sortObject (x :: rest)) c2) as [l2|];
      try contradiction; [|simpl; auto].
    assert (He : Permutation
                   (validateOnChainProperties
                      (read (canonical req_body (x :: rest)) "subject") l1)
                   (validateOnChainProperties
                      (read (canonical req_body (x :: rest)) "subject") l2)).
    { rewrite !validateOnChainProperties_flat_map. now apply Permutation_flat_map. }
    rewrite (Permutation_is_empty _ _ He).
    destruct (is_empty (validateOnChainProperties _ l2)); simpl; auto.
  - unfold receive. rewrite Hf. simpl. auto.
Qed.


End Verdict.

Lemma completion_order_keeps_verdict_witness :
  fst (@receive demo "http://localhost:8545"
         (submission "ab" "0xab" "sig:0xab" [record "0x02" "0xb0b"; record "0x03" "0xb0b"])
         [0; 1]) =
  fst (@receive demo "http://localhost:8545"
         (submission "ab" "0xab" "sig:0xab" [record "0x02" "0xb0b"; record "0x03" "0xb0b"])
         [1; 0]) /\
  @same_up_to_order demo
    (snd (@receive demo "http://localhost:8545"
            (submission "ab" "0xab" "sig:0xab" [record "0x02" "0xb0b"; record "0x03" "0xb0b"])
            [0; 1]))
    (snd (@receive demo "http://localhost:8545"
            (submission "ab" "0xab" "sig:0xab" [record "0x02" "0xb0b"; record "0x03" "0xb0b"])
            [1; 0])).
Proof.
  apply (@completion_order_keeps_verdict demo "http://localhost:8545").
  apply perm_swap.
Defined.

(** ** What an accepted submission has passed *)



Section Accepted.

Context {ext : Externals}.
Variable provider : string.


End Accepted.


(** ** Blank strings *)

(** X14. A string is blank for [isNullOrWhiteSpace] exactly when every one
    of its characters is whitespace, the empty string included; whitespace
    around other characters does not make a string blank. *)
Theorem isNullOrWhiteSpace_string (s : string) :
  (isNullOrWhiteSpace (Str s) = true <->
   forall c, In c (list_ascii_of_string s) -> is_whitespace c = true) /\
  isNullOrWhiteSpace (Str "") = true /\
  (forall a b c,
     is_whitespace c = false ->
     isNullOrWhiteSpace (Str (String.append a (String c b))) = false).
Proof.
  split; [|split].
  - simpl. rewrite String.eqb_eq, trim_empty. unfold all_whitespace.
    now rewrite forallb_forall.
  - reflexivity.
  - intros a b c Hc. simpl. apply String.eqb_neq. rewrite trim_empty.
    unfold all_whitespace. intros H. rewrite forallb_forall in H.
    assert (Hin : In c (list_ascii_of_string (String.append a (String c b)))).
    { clear. induction a as [|x a IH]; simpl; auto. }
    rewrite (H c Hin) in Hc. discriminate.
Qed.

(** ** [sortObject] on a sequence *)

Lemma array_index_index_key (i : nat) :
  (N.of_nat i <= 4294967294)%N -> array_index (index_key i) = Some (N.of_nat i).
Proof.
  intros Hi. unfold array_index, index_key.
  rewrite NilEmpty.usu, DecimalN.Unsigned.of_to, String.eqb_refl.
  apply N.leb_le in Hi. now rewrite Hi.
Qed.

Lemma In_keys_indexed (items : list value) :
  forall i k,
    In k (map fst (indexed i items)) ->
    exists j, i <= j < i + List.length items /\ k = index_key j.
Proof.
  induction items as [|x items IH]; intros i k; simpl; [intros [] |].
  intros [<- | Hin].
  - exists i. split; [lia | reflexivity].
  - destruct (IH _ _ Hin) as [j [Hj ->]]. exists j. split; [lia | reflexivity].
Qed.

Lemma indexed_ordered (items : list value) :
  forall i,
    (N.of_nat (i + List.length items) <= 4294967295)%N -> key_ordered (indexed i items).
Proof.
  unfold key_ordered.
  induction items as [|x items IH]; intros i Hi; simpl; [constructor |].
  simpl in Hi. constructor; [apply IH; lia |].
  apply Forall_forall. intros k Hk.
  destruct (In_keys_indexed _ _ _ Hk) as [j [Hj ->]].
  unfold js_lt. rewrite !array_index_index_key by lia. lia.
Qed.

(** X15. A sequence given to [sortObject], as an element of [data] can
    be, comes back as the mapping from its positions, in their order, to
    its elements, with the elements that are mappings sorted and those that
    are null replaced by an empty mapping. *)
Theorem sortObject_sequence (items : list value) :
  (N.of_nat (List.length items) <= 4294967295)%N ->
  sortObject (Arr items) = Obj (indexed 0 (map sortChild items)).
Proof.
  intros Hlen. rewrite sortObject_entries. simpl own_props.
  rewrite <- indexed_map_values. f_equal. apply fill_fixed.
  - apply indexed_ordered. now rewrite length_map.
  - intros Hin. apply In_keys_indexed in Hin as [j [Hj E]].
    rewrite length_map in Hj.
    assert (H : array_index "__proto__" = array_index (index_key j)) by now rewrite E.
    rewrite array_index_index_key in H by lia. vm_compute in H. discriminate.
Qed.

Lemma sortObject_sequence_witness :
  sortObject (Arr [Obj [("b", Bool true); ("a", Bool false)]; Null; Str "x"]) =
  Obj (indexed 0 (map sortChild [Obj [("b", Bool true); ("a", Bool false)]; Null; Str "x"])).
Proof.
  apply (sortObject_sequence [Obj [("b", Bool true); ("a", Bool false)]; Null; Str "x"]).
  vm_compute. discriminate.
Defined.

(** ** The pairs of the fetch stage, on an example *)

Lemma fetchAll_correlated_witness :
  In (shareData {| shareData := record "0x03" "0xb0b"; logs := [attested "0xe5e"] |})
    [record "0x01" "0xb0b"; record "0x03" "0xb0b"] /\
  @getDecodedTxEventLogs demo "http://localhost:8545"
    (read (shareData {| shareData := record "0x03" "0xb0b"; logs := [attested "0xe5e"] |})
       "tx") =
    Some (logs {| shareData := record "0x03" "0xb0b"; logs := [attested "0xe5e"] |}).
Proof.
  apply (@fetchAll_correlated demo "http://localhost:8545"
           [record "0x01" "0xb0b"; record "0x03" "0xb0b"] [1; 0]
           [ {| shareData := record "0x03" "0xb0b"; logs := [attested "0xe5e"] |};
             {| shareData := record "0x01" "0xb0b"; logs := [attested "0xb0b"] |} ]).
  - vm_compute. reflexivity.
  - simpl. auto.
Defined.

Lemma fetchAll_completion_order_witness :
  map Some
    (map shareData
       [ {| shareData := record "0x03" "0xb0b"; logs := [attested "0xe5e"] |};
         {| shareData := record "0x01" "0xb0b"; logs := [attested "0xb0b"] |} ]) =
  map (nth_error [record "0x01" "0xb0b"; record "0x03" "0xb0b"]) [1; 0].
Proof.
  apply (@fetchAll_completion_order demo "http://localhost:8545"
           [record "0x01" "0xb0b"; record "0x03" "0xb0b"] [1; 0]
           [ {| shareData := record "0x03" "0xb0b"; logs := [attested "0xe5e"] |};
             {| shareData := record "0x01" "0xb0b"; logs := [attested "0xb0b"] |} ]).
  - vm_compute. reflexivity.
  - repeat constructor.
Defined.
